(** * FaceLike: the session-token codec and the JSON-file user store

    A shallow embedding of [index.js] (both variants: the plain [http]
    listener and the Express application) together with the part of the
    JavaScript and Node.js run time the two programs call:

    - strings are sequences of UTF-16 code units, buffers are sequences of
      bytes; both are lists of [Z] with the ranges written out;
    - [Buffer.from(s)], [buf.toString()], [buf.toString("base64")] and
      [Buffer.from(s, "base64")] are [utf8_encode], [utf8_decode],
      [base64_encode] and [base64_decode];
    - [JSON.stringify] and [JSON.parse] follow ECMA-262 (SerializeJSONProperty,
      QuoteJSONString and the JSON grammar);
    - exceptions are explicit: a computation yields a [completion];
    - the file system is a finite map from paths to file contents.

    Outside the model: the conversion of numbers to and from doubles (a
    number is kept as the decimal its literal denotes), the text of the HTML
    pages, the routing inside Express and its [urlencoded] middleware (a
    request carries [req.body] as the middleware left it), failures of the
    disk, and requests that overlap in time. *)

From Stdlib Require Import ZArith List Lia Ascii String Zify Bool.
From stdpp Require Import base gmap strings.
Import ListNotations.

Ltac Zify.zify_post_hook ::= Z.div_mod_to_equations.

Local Open Scope Z_scope.

(** ** Strings and buffers *)

(** A JavaScript string: a sequence of 16-bit code units. *)
Abbreviation jsstring := (list Z).

(** The contents of a [Buffer]: a sequence of bytes. *)
Abbreviation buffer := (list Z).

Definition wf_unit (c : Z) : Prop := 0 <= c < 65536.
Definition wf_string (s : jsstring) : Prop := Forall wf_unit s.
Definition wf_byte (b : Z) : Prop := 0 <= b < 256.
Definition wf_buffer (bs : buffer) : Prop := Forall wf_byte bs.

(** A string literal of the source, as code units. *)
Definition str (s : string) : jsstring :=
  map (fun a => Z.of_N (N_of_ascii a)) (list_ascii_of_string s).

Definition is_high (c : Z) : bool := (55296 <=? c) && (c <=? 56319).
Definition is_low (c : Z) : bool := (56320 <=? c) && (c <=? 57343).
Definition is_surrogate (c : Z) : bool := (55296 <=? c) && (c <=? 57343).

(** Well-formed UTF-16: every surrogate is half of a pair. *)
Inductive utf16_ok : jsstring -> Prop :=
| utf16_nil : utf16_ok []
| utf16_bmp c s :
    wf_unit c -> is_surrogate c = false -> utf16_ok s -> utf16_ok (c :: s)
| utf16_pair h l s :
    is_high h = true -> is_low l = true -> utf16_ok s -> utf16_ok (h :: l :: s).

(** ** Completions: a call returns, throws, or exhausts the parser's fuel *)

Inductive exn := SyntaxError | TypeError | URIError | SystemError.

Inductive completion (A : Type) : Type :=
| Normal (a : A)
| Throw (e : exn)
| Fuel.
Arguments Normal {A} a.
Arguments Throw {A} e.
Arguments Fuel {A}.

Definition bind {A B} (m : completion A) (k : A -> completion B) : completion B :=
  match m with
  | Normal a => k a
  | Throw e => Throw e
  | Fuel => Fuel
  end.

(** [try { m } catch (e) { h }] *)
Definition try_catch {A} (m : completion A) (h : exn -> completion A) : completion A :=
  match m with
  | Normal a => Normal a
  | Throw e => h e
  | Fuel => Fuel
  end.

Notation "'let*' x ':=' m 'in' k" := (bind m (fun x => k))
  (at level 10, x name, m at level 100, k at level 200).

(** ** UTF-8: [Buffer.from(string)] and [buffer.toString()] *)

Definition replacement : buffer := [239; 191; 189].

(** [Buffer.from(s)] (encoding "utf8"): a surrogate pair becomes one four-byte
    sequence, a lone surrogate becomes U+FFFD. *)
Fixpoint utf8_encode (s : jsstring) : buffer :=
  match s with
  | [] => []
  | c :: s' =>
    if c <? 128 then c :: utf8_encode s'
    else if c <? 2048 then (192 + c / 64) :: (128 + c mod 64) :: utf8_encode s'
    else if is_high c then
      match s' with
      | d :: s'' =>
        if is_low d then
          let cp := 65536 + (c - 55296) * 1024 + (d - 56320) in
          (240 + cp / 262144) :: (128 + (cp / 4096) mod 64)
            :: (128 + (cp / 64) mod 64) :: (128 + cp mod 64) :: utf8_encode s''
        else replacement ++ utf8_encode s'
      | [] => replacement
      end
    else if is_low c then replacement ++ utf8_encode s'
    else (224 + c / 4096) :: (128 + (c / 64) mod 64) :: (128 + c mod 64)
           :: utf8_encode s'
  end.

Definition is_cont (b : Z) : bool := (128 <=? b) && (b <=? 191).

(** The range allowed for the byte after a three-byte or four-byte lead:
    it excludes overlong forms, surrogates and code points above U+10FFFF. *)
Definition second_ok (lead b : Z) : bool :=
  if lead =? 224 then (160 <=? b) && (b <=? 191)
  else if lead =? 237 then (128 <=? b) && (b <=? 159)
  else if lead =? 240 then (144 <=? b) && (b <=? 191)
  else if lead =? 244 then (128 <=? b) && (b <=? 143)
  else is_cont b.

(** [buffer.toString()] (encoding "utf8"): every maximal ill-formed prefix
    decodes to one U+FFFD and decoding resumes at the offending byte. *)
Fixpoint utf8_decode (bs : buffer) : jsstring :=
  match bs with
  | [] => []
  | b :: bs1 =>
    if b <? 128 then b :: utf8_decode bs1
    else if (194 <=? b) && (b <=? 223) then
      match bs1 with
      | c1 :: bs2 =>
        if is_cont c1 then ((b - 192) * 64 + (c1 - 128)) :: utf8_decode bs2
        else 65533 :: utf8_decode bs1
      | [] => [65533]
      end
    else if (224 <=? b) && (b <=? 239) then
      match bs1 with
      | c1 :: bs2 =>
        if second_ok b c1 then
          match bs2 with
          | c2 :: bs3 =>
            if is_cont c2 then
              ((b - 224) * 4096 + (c1 - 128) * 64 + (c2 - 128)) :: utf8_decode bs3
            else 65533 :: utf8_decode bs2
          | [] => [65533]
          end
        else 65533 :: utf8_decode bs1
      | [] => [65533]
      end
    else if (240 <=? b) && (b <=? 244) then
      match bs1 with
      | c1 :: bs2 =>
        if second_ok b c1 then
          match bs2 with
          | c2 :: bs3 =>
            if is_cont c2 then
              match bs3 with
              | c3 :: bs4 =>
                if is_cont c3 then
                  let cp := (b - 240) * 262144 + (c1 - 128) * 4096
                            + (c2 - 128) * 64 + (c3 - 128) in
                  (55296 + (cp - 65536) / 1024) :: (56320 + (cp - 65536) mod 1024)
                    :: utf8_decode bs4
                else 65533 :: utf8_decode bs3
              | [] => [65533]
              end
            else 65533 :: utf8_decode bs2
          | [] => [65533]
          end
        else 65533 :: utf8_decode bs1
      | [] => [65533]
      end
    else 65533 :: utf8_decode bs1
  end.

(** ** Base64: [buffer.toString("base64")] and [Buffer.from(s, "base64")] *)

Definition b64char (v : Z) : Z :=
  if v <? 26 then 65 + v
  else if v <? 52 then 97 + (v - 26)
  else if v <? 62 then 48 + (v - 52)
  else if v =? 62 then 43
  else 47.

(** Node also accepts the URL-safe alphabet ([-] and [_]). *)
Definition unbase64 (c : Z) : option Z :=
  if (65 <=? c) && (c <=? 90) then Some (c - 65)
  else if (97 <=? c) && (c <=? 122) then Some (c - 71)
  else if (48 <=? c) && (c <=? 57) then Some (c + 4)
  else if (c =? 43) || (c =? 45) then Some 62
  else if (c =? 47) || (c =? 95) then Some 63
  else None.

Fixpoint base64_encode (bs : buffer) : jsstring :=
  match bs with
  | a :: b :: c :: bs' =>
    b64char (a / 4) :: b64char ((a mod 4) * 16 + b / 16)
      :: b64char ((b mod 16) * 4 + c / 64) :: b64char (c mod 64)
      :: base64_encode bs'
  | [a; b] =>
    [b64char (a / 4); b64char ((a mod 4) * 16 + b / 16); b64char ((b mod 16) * 4); 61]
  | [a] => [b64char (a / 4); b64char ((a mod 4) * 16); 61; 61]
  | [] => []
  end.

(** Node's decoder is lenient: it never fails.  Characters outside the two
    alphabets are skipped and the first [=] ends the data. *)
Fixpoint base64_sextets (s : jsstring) : list Z :=
  match s with
  | [] => []
  | c :: s' =>
    if c =? 61 then []
    else match unbase64 c with
         | Some v => v :: base64_sextets s'
         | None => base64_sextets s'
         end
  end.

Fixpoint base64_bytes (l : list Z) : buffer :=
  match l with
  | s0 :: s1 :: s2 :: s3 :: l' =>
    (s0 * 4 + s1 / 16) :: ((s1 mod 16) * 16 + s2 / 4) :: ((s2 mod 4) * 64 + s3)
      :: base64_bytes l'
  | [s0; s1; s2] => [s0 * 4 + s1 / 16; (s1 mod 16) * 16 + s2 / 4]
  | [s0; s1] => [s0 * 4 + s1 / 16]
  | _ => []
  end.

Definition base64_decode (s : jsstring) : buffer :=
  base64_bytes (base64_sextets s).

(** ** JavaScript values *)

(** A number is kept as the exact decimal [(-1)^neg * mant * 10^exp] its
    literal denotes; the JavaScript value is the double nearest to it. *)
Record decimal := { d_neg : bool; d_mant : Z; d_exp : Z }.

(** The values the two programs handle: what [JSON.parse] builds, plus
    [undefined] (an absent form field or property) and [JFunction] (a method
    inherited from a prototype, which the programs can reach but never call).
    An object lists its own properties in creation order; that JavaScript
    moves integer-like keys to the front is not modelled (the programs
    create no such key). *)
Unset Elimination Schemes.
Inductive value : Type :=
| JUndefined
| JNull
| JBool (b : bool)
| JNumber (d : decimal)
| JString (s : jsstring)
| JArray (vs : list value)
| JObject (ms : list (jsstring * value))
| JFunction.
Set Elimination Schemes.

Section value_induction.
Variable P : value -> Prop.
Hypothesis Hundefined : P JUndefined.
Hypothesis Hnull : P JNull.
Hypothesis Hbool : forall b, P (JBool b).
Hypothesis Hnumber : forall d, P (JNumber d).
Hypothesis Hstring : forall s, P (JString s).
Hypothesis Harray : forall vs, Forall P vs -> P (JArray vs).
Hypothesis Hobject : forall ms, Forall (fun m => P (snd m)) ms -> P (JObject ms).
Hypothesis Hfunction : P JFunction.

Fixpoint value_ind (v : value) : P v :=
  match v with
  | JUndefined => Hundefined
  | JNull => Hnull
  | JBool b => Hbool b
  | JNumber d => Hnumber d
  | JString s => Hstring s
  | JArray vs =>
    Harray vs ((fix go (l : list value) : Forall P l :=
                  match l with
                  | [] => List.Forall_nil P
                  | x :: l' => List.Forall_cons P x l' (value_ind x) (go l')
                  end) vs)
  | JObject ms =>
    Hobject ms ((fix go (l : list (jsstring * value)) : Forall (fun m => P (snd m)) l :=
                   match l with
                   | [] => List.Forall_nil _
                   | m :: l' => List.Forall_cons _ m l' (value_ind (snd m)) (go l')
                   end) ms)
  | JFunction => Hfunction
  end.
End value_induction.

(** ToBoolean.  A number is falsy when its double is zero: the decimal is
    zero or does not exceed 2^-1075, half the least positive double. *)
Definition rounds_to_zero (d : decimal) : bool :=
  (d_mant d =? 0)
  || ((d_exp d <? 0) && (d_mant d * 2 ^ 1075 <=? 10 ^ (- d_exp d))).

Definition truthy (v : value) : bool :=
  match v with
  | JUndefined | JNull => false
  | JBool b => b
  | JNumber d => negb (rounds_to_zero d)
  | JString s => negb (bool_decide (s = []))
  | JArray _ | JObject _ | JFunction => true
  end.

(** [o[k] = v] on an own data property (CreateDataProperty): an existing
    property keeps its place. *)
Fixpoint obj_set (ms : list (jsstring * value)) (k : jsstring) (v : value)
  : list (jsstring * value) :=
  match ms with
  | [] => [(k, v)]
  | (k', v') :: ms' =>
    if bool_decide (k' = k) then (k', v) :: ms' else (k', v') :: obj_set ms' k v
  end.

(** The own property [k] of an object, if it has one. *)
Fixpoint own_prop (ms : list (jsstring * value)) (k : jsstring) : option value :=
  match ms with
  | [] => None
  | (k', v') :: ms' => if bool_decide (k' = k) then Some v' else own_prop ms' k
  end.

(** [o[k]] read from the own properties: the own property, else
    [undefined].  That is the value of [o[k]] for every name that the
    prototype of [o] does not supply; the programs read [name], [email],
    [password], [sub] and [access_token], none of which [Object.prototype]
    has. *)
Fixpoint obj_get (ms : list (jsstring * value)) (k : jsstring) : value :=
  match ms with
  | [] => JUndefined
  | (k', v') :: ms' => if bool_decide (k' = k) then v' else obj_get ms' k
  end.

(** The names [Object.prototype] supplies to an object made by [{}]: its
    methods and the accessor [__proto__]. *)
Definition proto_name : jsstring := Eval cbv in str "__proto__".

Definition object_prototype_names : list jsstring :=
  Eval cbv in
    map str ["constructor"; "__defineGetter__"; "__defineSetter__"; "hasOwnProperty";
             "__lookupGetter__"; "__lookupSetter__"; "isPrototypeOf";
             "propertyIsEnumerable"; "toString"; "valueOf"; "toLocaleString";
             "__proto__"]%string.

Definition inherited (k : jsstring) : bool := bool_decide (k ∈ object_prototype_names).

(** [o[k] = v] where [o] was made by [{}] and [v] is a string.  Under the
    name [__proto__] the assignment reaches the setter of
    [Object.prototype], which ignores a value that is neither an object nor
    [null]: nothing is stored.  Every other name becomes, or stays, an own
    property. *)
Definition plain_set (ms : list (jsstring * value)) (k v : jsstring)
  : list (jsstring * value) :=
  if bool_decide (k = proto_name) then ms else obj_set ms k (JString v).

(** ** [JSON.stringify] *)

Definition lit_null : jsstring := Eval cbv in str "null".
Definition lit_true : jsstring := Eval cbv in str "true".
Definition lit_false : jsstring := Eval cbv in str "false".

Definition hex_digit (v : Z) : Z := if v <? 10 then 48 + v else 87 + v.

(** UnicodeEscape: [\uXXXX] with lower-case digits. *)
Definition unicode_escape (c : Z) : jsstring :=
  [92; 117; hex_digit (c / 4096); hex_digit ((c / 256) mod 16);
   hex_digit ((c / 16) mod 16); hex_digit (c mod 16)].

(** The two-character escapes of QuoteJSONString: backspace, tab, line feed,
    form feed, carriage return, the double quote and the backslash. *)
Definition short_escape (c : Z) : option Z :=
  if c =? 8 then Some 98
  else if c =? 9 then Some 116
  else if c =? 10 then Some 110
  else if c =? 12 then Some 102
  else if c =? 13 then Some 114
  else if c =? 34 then Some 34
  else if c =? 92 then Some 92
  else None.

(** QuoteJSONString (ECMAScript 2019 and later) walks the code points of the
    string: a surrogate pair is copied, a lone surrogate and a control
    character are escaped. *)
Fixpoint quote_chars (s : jsstring) : jsstring :=
  match s with
  | [] => []
  | c :: s' =>
    match short_escape c with
    | Some e => 92 :: e :: quote_chars s'
    | None =>
      if c <? 32 then unicode_escape c ++ quote_chars s'
      else if is_high c then
        match s' with
        | d :: s'' =>
          if is_low d then c :: d :: quote_chars s''
          else unicode_escape c ++ quote_chars s'
        | [] => unicode_escape c
        end
      else if is_low c then unicode_escape c ++ quote_chars s'
      else c :: quote_chars s'
    end
  end.

Definition quote (s : jsstring) : jsstring := 34 :: quote_chars s ++ [34].

Fixpoint uint_chars (u : Decimal.uint) : jsstring :=
  match u with
  | Decimal.Nil => []
  | Decimal.D0 u' => 48 :: uint_chars u'
  | Decimal.D1 u' => 49 :: uint_chars u'
  | Decimal.D2 u' => 50 :: uint_chars u'
  | Decimal.D3 u' => 51 :: uint_chars u'
  | Decimal.D4 u' => 52 :: uint_chars u'
  | Decimal.D5 u' => 53 :: uint_chars u'
  | Decimal.D6 u' => 54 :: uint_chars u'
  | Decimal.D7 u' => 55 :: uint_chars u'
  | Decimal.D8 u' => 56 :: uint_chars u'
  | Decimal.D9 u' => 57 :: uint_chars u'
  end.

(** Number::toString prints the shortest digits that read back as the same
    double; that is outside this model.  A number is printed as
    [<mant>e<exp>], a JSON literal of the same decimal.  No theorem below
    serialises a number. *)
Definition number_text (d : decimal) : jsstring :=
  (if d_neg d then [45] else [])
    ++ uint_chars (N.to_uint (Z.to_N (d_mant d)))
    ++ [101] ++ (if d_exp d <? 0 then [45] else [])
    ++ uint_chars (N.to_uint (Z.abs_N (d_exp d))).

Fixpoint join (sep : jsstring) (parts : list jsstring) : jsstring :=
  match parts with
  | [] => []
  | [p] => p
  | p :: ps => p ++ sep ++ join sep ps
  end.

(** The last steps of SerializeJSONObject and SerializeJSONArray: [stepback]
    is the indentation outside the brackets, [indent] the one inside. *)
Definition wrap (opening closing : Z) (gap stepback indent : jsstring)
           (partial : list jsstring) : jsstring :=
  match partial with
  | [] => [opening; closing]
  | _ =>
    match gap with
    | [] => opening :: join [44] partial ++ [closing]
    | _ => opening :: 10 :: indent ++ join (44 :: 10 :: indent) partial
             ++ 10 :: stepback ++ [closing]
    end
  end.

(** SerializeJSONProperty; [None] is [undefined].  A property whose value
    serialises to [undefined] is left out of an object and printed as [null]
    in an array. *)
Fixpoint serialize (gap indent : jsstring) (v : value) : option jsstring :=
  match v with
  | JUndefined | JFunction => None
  | JNull => Some lit_null
  | JBool b => Some (if b then lit_true else lit_false)
  | JNumber d => Some (number_text d)
  | JString s => Some (quote s)
  | JArray vs =>
    Some (wrap 91 93 gap indent (indent ++ gap)
            ((fix elements (l : list value) : list jsstring :=
                match l with
                | [] => []
                | x :: l' =>
                  match serialize gap (indent ++ gap) x with
                  | Some t => t
                  | None => lit_null
                  end :: elements l'
                end) vs))
  | JObject ms =>
    Some (wrap 123 125 gap indent (indent ++ gap)
            ((fix members (l : list (jsstring * value)) : list jsstring :=
                match l with
                | [] => []
                | (k, x) :: l' =>
                  match serialize gap (indent ++ gap) x with
                  | Some t =>
                    (quote k ++ 58 :: match gap with [] => [] | _ => [32] end ++ t)
                      :: members l'
                  | None => members l'
                  end
                end) ms))
  end.

(** [JSON.stringify(v, null, space)] for a numeric [space]; [space = 0] is
    [JSON.stringify(v)]. *)
Definition JSON_stringify (v : value) (space : nat) : option jsstring :=
  serialize (repeat 32 (Nat.min space 10)) [] v.

(** ** [JSON.parse] *)

(** The outcome of a parsing function: a result and the unread input, a
    syntax error, or recursion budget exhausted (see [JSON_parse]). *)
Inductive presult (A : Type) : Type :=
| POk (a : A) (rest : jsstring)
| PErr
| PFuel.
Arguments POk {A} a rest.
Arguments PErr {A}.
Arguments PFuel {A}.

(** JSON white space: tab, line feed, carriage return, space. *)
Definition is_ws (c : Z) : bool := (c =? 9) || (c =? 10) || (c =? 13) || (c =? 32).

Fixpoint skip_ws (s : jsstring) : jsstring :=
  match s with
  | [] => []
  | c :: s' => if is_ws c then skip_ws s' else s
  end.

Definition hex_value (c : Z) : option Z :=
  if (48 <=? c) && (c <=? 57) then Some (c - 48)
  else if (97 <=? c) && (c <=? 102) then Some (c - 87)
  else if (65 <=? c) && (c <=? 70) then Some (c - 55)
  else None.

(** The character after a backslash, other than [u]. *)
Definition unescape (e : Z) : option Z :=
  if e =? 34 then Some 34
  else if e =? 92 then Some 92
  else if e =? 47 then Some 47
  else if e =? 98 then Some 8
  else if e =? 102 then Some 12
  else if e =? 110 then Some 10
  else if e =? 114 then Some 13
  else if e =? 116 then Some 9
  else None.

(** The characters of a string literal after its opening quote, up to and
    including the closing quote. *)
Fixpoint parse_string_chars (s : jsstring) : option (jsstring * jsstring) :=
  match s with
  | [] => None
  | c :: s1 =>
    if c =? 34 then Some ([], s1)
    else if c =? 92 then
      match s1 with
      | [] => None
      | e :: s2 =>
        if e =? 117 then
          match s2 with
          | h1 :: h2 :: h3 :: h4 :: s3 =>
            match hex_value h1, hex_value h2, hex_value h3, hex_value h4 with
            | Some x1, Some x2, Some x3, Some x4 =>
              match parse_string_chars s3 with
              | Some (t, rest) =>
                Some ((x1 * 4096 + x2 * 256 + x3 * 16 + x4) :: t, rest)
              | None => None
              end
            | _, _, _, _ => None
            end
          | _ => None
          end
        else
          match unescape e with
          | Some u =>
            match parse_string_chars s2 with
            | Some (t, rest) => Some (u :: t, rest)
            | None => None
            end
          | None => None
          end
      end
    else if c <? 32 then None
    else
      match parse_string_chars s1 with
      | Some (t, rest) => Some (c :: t, rest)
      | None => None
      end
  end.

Definition is_digit (c : Z) : bool := (48 <=? c) && (c <=? 57).

Fixpoint span_digits (s : jsstring) : list Z * jsstring :=
  match s with
  | [] => ([], [])
  | c :: s' =>
    if is_digit c then let '(ds, rest) := span_digits s' in (c :: ds, rest)
    else ([], s)
  end.

Definition digits_value (ds : list Z) : Z :=
  fold_left (fun a d => a * 10 + (d - 48)) ds 0.

(** The exponent part of a number, if any: [e] or [E], a sign, digits. *)
Definition parse_exponent (s : jsstring) : option (Z * jsstring) :=
  match s with
  | c :: s1 =>
    if (c =? 101) || (c =? 69) then
      let '(neg, s2) :=
        match s1 with
        | d :: s1' =>
          if d =? 45 then (true, s1') else if d =? 43 then (false, s1') else (false, s1)
        | [] => (false, s1)
        end in
      match span_digits s2 with
      | ([], _) => None
      | (es, rest) => Some (if neg then - digits_value es else digits_value es, rest)
      end
    else Some (0, s)
  | [] => Some (0, s)
  end.

(** The fraction part of a number, if any: a dot and at least one digit. *)
Definition parse_fraction (s : jsstring) : option (list Z * jsstring) :=
  match s with
  | c :: s1 =>
    if c =? 46 then
      match span_digits s1 with
      | ([], _) => None
      | (fs, rest) => Some (fs, rest)
      end
    else Some ([], s)
  | [] => Some ([], s)
  end.

(** A number: an optional minus, [0] or a digit run without leading zero,
    an optional fraction, an optional exponent. *)
Definition parse_number (s : jsstring) : option (decimal * jsstring) :=
  let '(neg, s1) :=
    match s with
    | c :: s' => if c =? 45 then (true, s') else (false, s)
    | [] => (false, s)
    end in
  match s1 with
  | c :: s2 =>
    if is_digit c then
      let '(ids, s3) := if c =? 48 then ([c], s2) else
                          let '(ds, r) := span_digits s2 in (c :: ds, r) in
      match parse_fraction s3 with
      | Some (fs, s4) =>
        match parse_exponent s4 with
        | Some (e, rest) =>
          Some ({| d_neg := neg; d_mant := digits_value (ids ++ fs);
                   d_exp := e - Z.of_nat (length fs) |}, rest)
        | None => None
        end
      | None => None
      end
    else None
  | [] => None
  end.

Fixpoint strip_prefix (p s : jsstring) : option jsstring :=
  match p, s with
  | [], _ => Some s
  | a :: p', b :: s' => if a =? b then strip_prefix p' s' else None
  | _ :: _, [] => None
  end.

Definition parse_literal (lit : jsstring) (v : value) (s : jsstring) : presult value :=
  match strip_prefix lit s with
  | Some rest => POk v rest
  | None => PErr
  end.

(** The recursive-descent parser of the JSON grammar.  [fuel] bounds the
    number of nested calls; [parse_elements] reads the elements of an array
    after its first bracket, [parse_members] the members of an object.  A
    repeated key overwrites the earlier value, and the members are listed in
    the order of the text (JavaScript lists integer-like keys first; the
    programs read properties by name only). *)
Fixpoint parse_value (fuel : nat) (s : jsstring) : presult value :=
  match fuel with
  | O => PFuel
  | S f =>
    match s with
    | [] => PErr
    | c :: s1 =>
      if c =? 123 then
        match skip_ws s1 with
        | [] => PErr
        | d :: s2 =>
          if d =? 125 then POk (JObject []) s2 else parse_members f (d :: s2) []
        end
      else if c =? 91 then
        match skip_ws s1 with
        | [] => PErr
        | d :: s2 =>
          if d =? 93 then POk (JArray []) s2 else parse_elements f (d :: s2) []
        end
      else if c =? 34 then
        match parse_string_chars s1 with
        | Some (t, rest) => POk (JString t) rest
        | None => PErr
        end
      else if c =? 110 then parse_literal lit_null JNull s
      else if c =? 116 then parse_literal lit_true (JBool true) s
      else if c =? 102 then parse_literal lit_false (JBool false) s
      else
        match parse_number s with
        | Some (d, rest) => POk (JNumber d) rest
        | None => PErr
        end
    end
  end
with parse_elements (fuel : nat) (s : jsstring) (acc : list value) : presult value :=
  match fuel with
  | O => PFuel
  | S f =>
    match parse_value f s with
    | POk v rest =>
      match skip_ws rest with
      | [] => PErr
      | c :: rest' =>
        if c =? 44 then parse_elements f (skip_ws rest') (acc ++ [v])
        else if c =? 93 then POk (JArray (acc ++ [v])) rest'
        else PErr
      end
    | PErr => PErr
    | PFuel => PFuel
    end
  end
with parse_members (fuel : nat) (s : jsstring) (acc : list (jsstring * value))
  : presult value :=
  match fuel with
  | O => PFuel
  | S f =>
    match s with
    | [] => PErr
    | c :: s1 =>
      if c =? 34 then
        match parse_string_chars s1 with
        | None => PErr
        | Some (k, s2) =>
          match skip_ws s2 with
          | [] => PErr
          | d :: s3 =>
            if d =? 58 then
              match parse_value f (skip_ws s3) with
              | POk v rest =>
                match skip_ws rest with
                | [] => PErr
                | e :: rest' =>
                  if e =? 44 then parse_members f (skip_ws rest') (obj_set acc k v)
                  else if e =? 125 then POk (JObject (obj_set acc k v)) rest'
                  else PErr
                end
              | PErr => PErr
              | PFuel => PFuel
              end
            else PErr
          end
        end
      else PErr
    end
  end.

(** [JSON.parse(text)]: one value between optional white space, or a
    SyntaxError.  The budget is more than any text can use
    ([parse_within] below). *)
Definition JSON_parse (text : jsstring) : completion value :=
  match parse_value (S (2 * length text)) (skip_ws text) with
  | POk v rest =>
    match skip_ws rest with
    | [] => Normal v
    | _ :: _ => Throw SyntaxError
    end
  | PErr => Throw SyntaxError
  | PFuel => Fuel
  end.

(** ** The token codec ([createToken], [verifyToken]; the same text in both
    variants) *)

(** [s.split(sep)] for a one-character separator. *)
Fixpoint split (sep : Z) (s : jsstring) : list jsstring :=
  match s with
  | [] => [[]]
  | c :: s' =>
    if c =? sep then [] :: split sep s'
    else match split sep s' with
         | p :: ps => (c :: p) :: ps
         | [] => [[c]]
         end
  end.

(** [token.split(".")]: only a string has the method; calling it on anything
    else is a TypeError. *)
Definition String_split (v : value) (sep : Z) : completion (list jsstring) :=
  match v with
  | JString s => Normal (split sep s)
  | _ => Throw TypeError
  end.

(** [Buffer.from(x)] where [x] is the result of [JSON.stringify]:
    [Buffer.from(undefined)] is a TypeError. *)
Definition Buffer_from (x : option jsstring) : completion buffer :=
  match x with
  | Some s => Normal (utf8_encode s)
  | None => Throw TypeError
  end.

Definition jwt_header : value :=
  JObject [(str "alg", JString (str "none")); (str "typ", JString (str "JWT"))].

Definition createToken (payload : value) : completion jsstring :=
  let* hb := Buffer_from (JSON_stringify jwt_header 0) in
  let header := base64_encode hb in
  let* bb := Buffer_from (JSON_stringify payload 0) in
  let body := base64_encode bb in
  Normal (header ++ [46] ++ body ++ [46]).

Definition verifyToken (token : value) : completion value :=
  try_catch
    (let* parts := String_split token 46 in
     if (length parts <? 2)%nat then Normal JNull
     else JSON_parse (utf8_decode (base64_decode (nth 1 parts []))))
    (fun _ => Normal JNull).

(** ** The file system and the user store ([readUsers], [saveUsers]; the
    same text in both variants) *)

(** A file system maps a path to the bytes of the file.  Reads and writes
    of an existing path succeed: failures of the device are not modelled. *)
Abbreviation filesystem := (gmap string buffer).

(** Code that reads and writes files: it runs from a file system to a file
    system and a completion.  What was written before an exception stays
    written. *)
Definition io (A : Type) : Type := filesystem -> filesystem * completion A.

Definition io_ret {A} (a : A) : io A := fun fs => (fs, Normal a).

Definition io_bind {A B} (m : io A) (k : A -> io B) : io B :=
  fun fs =>
    match m fs with
    | (fs', Normal a) => k a fs'
    | (fs', Throw e) => (fs', Throw e)
    | (fs', Fuel) => (fs', Fuel)
    end.

(** A computation that does not touch the file system. *)
Definition lift {A} (c : completion A) : io A := fun fs => (fs, c).

Notation "x <- m ;; k" := (io_bind m (fun x => k))
  (at level 100, m at next level, right associativity).

Definition DB_FILE : string := "users.json".

Definition existsSync (p : string) : io bool :=
  fun fs => (fs, Normal (bool_decide (is_Some (fs !! p)))).

(** [fs.readFileSync(p, "utf-8")]; a missing file is an Error. *)
Definition readFileSync (p : string) : io jsstring :=
  fun fs =>
    match fs !! p with
    | Some bs => (fs, Normal (utf8_decode bs))
    | None => (fs, Throw SystemError)
    end.

(** [fs.writeFileSync(p, data)] where [data] is the result of
    [JSON.stringify]; [undefined] is not accepted as data. *)
Definition writeFileSync (p : string) (data : option jsstring) : io unit :=
  fun fs =>
    match data with
    | Some s => (<[p := utf8_encode s]> fs, Normal tt)
    | None => (fs, Throw TypeError)
    end.

Definition readUsers : io value :=
  there <- existsSync DB_FILE ;;
  if negb there then io_ret (JArray [])
  else text <- readFileSync DB_FILE ;; lift (JSON_parse text).

Definition saveUsers (users : value) : io unit :=
  writeFileSync DB_FILE (JSON_stringify users 2).

(** ** The operations the handlers apply to values *)

(** [v.k] for the property names the programs read: [email], [password],
    [sub].  Reading a property of [null] or [undefined] is a TypeError; an
    object answers with its own property; of those names the prototypes
    supply only [String.prototype.sub]. *)
Definition get_prop (v : value) (k : jsstring) : completion value :=
  match v with
  | JUndefined | JNull => Throw TypeError
  | JObject ms => Normal (obj_get ms k)
  | JString _ => Normal (if bool_decide (k = str "sub") then JFunction else JUndefined)
  | _ => Normal JUndefined
  end.

(** Two decimals with the same value. *)
Definition decimal_eqb (a b : decimal) : bool :=
  let e := Z.min (d_exp a) (d_exp b) in
  let ma := d_mant a * 10 ^ (d_exp a - e) in
  let mb := d_mant b * 10 ^ (d_exp b - e) in
  (ma =? mb) && ((ma =? 0) || eqb (d_neg a) (d_neg b)).

(** [a === b].  Objects, arrays and functions are equal only to themselves,
    and the two sides of every comparison in the programs are built apart
    (one is parsed from the store file, the other comes from the request),
    so they compare unequal.  Numbers are compared as decimals; two different
    decimals with the same nearest double are outside the model. *)
Definition strict_eq (a b : value) : bool :=
  match a, b with
  | JUndefined, JUndefined => true
  | JNull, JNull => true
  | JBool x, JBool y => eqb x y
  | JNumber x, JNumber y => decimal_eqb x y
  | JString x, JString y => bool_decide (x = y)
  | _, _ => false
  end.

Fixpoint find_first (p : value -> completion bool) (l : list value) : completion value :=
  match l with
  | [] => Normal JUndefined
  | u :: l' => let* b := p u in if b then Normal u else find_first p l'
  end.

(** [users.find(p)]: only an array has the method. *)
Definition Array_find (p : value -> completion bool) (users : value) : completion value :=
  match users with
  | JArray l => find_first p l
  | _ => Throw TypeError
  end.

(** [users.push(x)], as the array after the call. *)
Definition Array_push (users : value) (x : value) : completion value :=
  match users with
  | JArray l => Normal (JArray (l ++ [x]))
  | _ => Throw TypeError
  end.

(** ** Requests and responses *)

(** A request: method, URL, the [Cookie] header if any, and the body as
    each program gets hold of it.  The plain server parses the body itself:
    [req_form] is the sequence of name/value pairs of the form in the order
    sent (what [new URLSearchParams(body)] iterates over).  The Express
    application reads [req.body], which the [urlencoded] middleware has
    filled in before the handler runs: [req_body] lists the own properties
    of that object (none when the form has no field).  The middleware is a
    dependency of the repository and is not modelled: whatever it made of
    the form is part of the request (a string for a plain field, an array
    for a repeated name, an object for a name with brackets), and what is
    proved of the Express handlers holds for every such object.  A request
    that the middleware passes on without an object in [req.body] is outside
    the model. *)
Record request := {
  req_method : jsstring;
  req_url : jsstring;
  req_cookie : option jsstring;
  req_form : list (jsstring * jsstring);
  req_body : list (jsstring * value)
}.

(** The body of a response; the text of the pages is not modelled. *)
Inductive page :=
| HomePage (heading : string)
| RegisterPage
| ProfilePage (user : value)
| PlainText (text : string)
| NoBody.

(** How a response sets a cookie: the plain server writes the [Set-Cookie]
    header itself, the Express application calls [res.cookie] or
    [res.clearCookie]. *)
Inductive cookie_action :=
| SetCookieHeader (header : jsstring)
| ResCookie (name value : jsstring) (httpOnly : bool)
| ResClearCookie (name : jsstring).

Record response := {
  status : Z;
  location : option jsstring;
  set_cookie : option cookie_action;
  body : page
}.

Definition redirect (target : string) : response :=
  {| status := 302; location := Some (str target); set_cookie := None; body := NoBody |}.

Definition send (p : page) : response :=
  {| status := 200; location := None; set_cookie := None; body := p |}.

(** The object [parseBody] hands to its callback, by its own properties:
    [result[k] = v] for every pair, starting from [{}].  The handlers read
    the fields [name], [email] and [password] of it and nothing else. *)
Definition parseBody (req : request) : list (jsstring * value) :=
  fold_left (fun result kv => plain_set result (fst kv) (snd kv)) (req_form req) [].

(** ** Cookies *)

(** White space and line terminators, as [String.prototype.trim] sees them. *)
Definition is_js_space (c : Z) : bool :=
  ((9 <=? c) && (c <=? 13)) || (c =? 32) || (c =? 160) || (c =? 5760)
  || ((8192 <=? c) && (c <=? 8202)) || (c =? 8232) || (c =? 8233)
  || (c =? 8239) || (c =? 8287) || (c =? 12288) || (c =? 65279).

Fixpoint trim_start (s : jsstring) : jsstring :=
  match s with
  | [] => []
  | c :: s' => if is_js_space c then trim_start s' else s
  end.

Definition trim (s : jsstring) : jsstring := rev (trim_start (rev (trim_start s))).

(** [decodeURIComponent]: every [%XX] is a byte, and the bytes must be the
    UTF-8 encoding of code points; anything else is a URIError. *)
Inductive uri_token := Lit (c : Z) | Octet (b : Z).

Fixpoint uri_tokens (s : jsstring) : option (list uri_token) :=
  match s with
  | [] => Some []
  | c :: s1 =>
    if c =? 37 then
      match s1 with
      | h1 :: h2 :: s2 =>
        match hex_value h1, hex_value h2 with
        | Some x1, Some x2 => option_map (cons (Octet (x1 * 16 + x2))) (uri_tokens s2)
        | _, _ => None
        end
      | _ => None
      end
    else option_map (cons (Lit c)) (uri_tokens s1)
  end.

Definition octet_if (ok : Z -> bool) (t : uri_token) : option Z :=
  match t with
  | Octet b => if ok b then Some b else None
  | Lit _ => None
  end.

Fixpoint uri_decode (ts : list uri_token) : option jsstring :=
  match ts with
  | [] => Some []
  | Lit c :: ts1 => option_map (cons c) (uri_decode ts1)
  | Octet b :: ts1 =>
    if b <? 128 then option_map (cons b) (uri_decode ts1)
    else if (194 <=? b) && (b <=? 223) then
      match ts1 with
      | t1 :: ts2 =>
        match octet_if is_cont t1 with
        | Some c1 => option_map (cons ((b - 192) * 64 + (c1 - 128))) (uri_decode ts2)
        | None => None
        end
      | [] => None
      end
    else if (224 <=? b) && (b <=? 239) then
      match ts1 with
      | t1 :: t2 :: ts3 =>
        match octet_if (second_ok b) t1, octet_if is_cont t2 with
        | Some c1, Some c2 =>
          option_map (cons ((b - 224) * 4096 + (c1 - 128) * 64 + (c2 - 128)))
                     (uri_decode ts3)
        | _, _ => None
        end
      | _ => None
      end
    else if (240 <=? b) && (b <=? 244) then
      match ts1 with
      | t1 :: t2 :: t3 :: ts4 =>
        match octet_if (second_ok b) t1, octet_if is_cont t2, octet_if is_cont t3 with
        | Some c1, Some c2, Some c3 =>
          let cp := (b - 240) * 262144 + (c1 - 128) * 4096
                    + (c2 - 128) * 64 + (c3 - 128) in
          option_map (fun t => (55296 + (cp - 65536) / 1024)
                                 :: (56320 + (cp - 65536) mod 1024) :: t)
                     (uri_decode ts4)
        | _, _, _ => None
        end
      | _ => None
      end
    else None
  end.

Definition decodeURIComponent (s : jsstring) : completion jsstring :=
  match uri_tokens s with
  | Some ts =>
    match uri_decode ts with
    | Some t => Normal t
    | None => Throw URIError
    end
  | None => Throw URIError
  end.

Fixpoint for_each {A S : Type} (f : S -> A -> completion S) (l : list A) (s : S)
  : completion S :=
  match l with
  | [] => Normal s
  | a :: l' => let* s' := f s a in for_each f l' s'
  end.

(** [parseCookies] of the plain server, the object it returns being given by
    its own properties.  [parts[1]] is [undefined] when the cookie has no
    [=], and [decodeURIComponent(undefined)] is the string [undefined]. *)
Definition parseCookies (req : request) : completion (list (jsstring * value)) :=
  match req_cookie req with
  | None => Normal []
  | Some cookieHeader =>
    if bool_decide (cookieHeader = []) then Normal []
    else
      for_each
        (fun list cookie =>
           let parts := split 61 cookie in
           let* v := decodeURIComponent (nth 1 parts (str "undefined")) in
           Normal (plain_set list (trim (nth 0 parts [])) v))
        (split 59 cookieHeader) []
  end.

(** The [cookie-parser] middleware of the Express variant (a dependency of
    the repository, modelled from its documentation): the header is cut at
    every [;], each piece at its first [=]; name and value are trimmed, a
    quoted value loses its quotes, the value is URI-decoded when that is
    possible, the first cookie of a name wins, and a value [j:<json>]
    is replaced by the parsed JSON when that is truthy.  Releases of the
    library differ in what they trim and when they unquote: the theorems on
    the profile handlers take the value of the cookie as the variant reads
    it ([session_cookie]), and the sample requests have neither quotes nor
    spaces around the value, so nothing below depends on those details. *)
Fixpoint break_at (sep : Z) (s : jsstring) : option (jsstring * jsstring) :=
  match s with
  | [] => None
  | c :: s' =>
    if c =? sep then Some ([], s')
    else match break_at sep s' with
         | Some (a, b) => Some (c :: a, b)
         | None => None
         end
  end.

Definition cookie_value (raw : jsstring) : value :=
  let v := trim raw in
  let v := match v with
           | c :: v' => if c =? 34 then removelast v' else v
           | [] => v
           end in
  let v := match decodeURIComponent v with Normal d => d | _ => v end in
  match v with
  | 106 :: 58 :: json =>
    match JSON_parse json with
    | Normal x => if truthy x then x else JString v
    | _ => JString v
    end
  | _ => JString v
  end.

Definition has_key (ms : list (jsstring * value)) (k : jsstring) : bool :=
  existsb (fun m => bool_decide (fst m = k)) ms.

Definition cookieParser (req : request) : list (jsstring * value) :=
  match req_cookie req with
  | None => []
  | Some header =>
    fold_left
      (fun cookies piece =>
         match break_at 61 piece with
         | Some (k, v) =>
           if has_key cookies (trim k) then cookies
           else cookies ++ [(trim k, cookie_value v)]
         | None => cookies
         end)
      (split 59 header) []
  end.

(** ** The handlers of the plain [http] server *)

Definition raw_get_profile (req : request) : io response :=
  cookies <- lift (parseCookies req) ;;
  let token := obj_get cookies (str "access_token") in
  payload <- lift (if truthy token then verifyToken token else Normal token) ;;
  if negb (truthy payload) then io_ret (redirect "/")
  else
    users <- readUsers ;;
    user <- lift (Array_find
                    (fun u => let* e := get_prop u (str "email") in
                              let* s := get_prop payload (str "sub") in
                              Normal (strict_eq e s)) users) ;;
    if negb (truthy user) then io_ret (redirect "/")
    else io_ret (send (ProfilePage user)).

Definition raw_post_register (req : request) : io response :=
  let body := parseBody req in
  let name := obj_get body (str "name") in
  let email := obj_get body (str "email") in
  let password := obj_get body (str "password") in
  users <- readUsers ;;
  found <- lift (Array_find
                   (fun u => let* e := get_prop u (str "email") in
                             Normal (strict_eq e email)) users) ;;
  if truthy found then io_ret (redirect "/register")
  else
    users <- lift (Array_push users
                     (JObject [(str "name", name); (str "email", email);
                               (str "password", password)])) ;;
    _ <- saveUsers users ;;
    token <- lift (createToken (JObject [(str "sub", email)])) ;;
    io_ret {| status := 302;
              location := Some (str "/profile");
              set_cookie := Some (SetCookieHeader
                                    (str "access_token=" ++ token ++ str "; HttpOnly"));
              body := NoBody |}.

Definition raw_post_login (req : request) : io response :=
  let body := parseBody req in
  let email := obj_get body (str "email") in
  let password := obj_get body (str "password") in
  users <- readUsers ;;
  user <- lift (Array_find
                  (fun u => let* e := get_prop u (str "email") in
                            if strict_eq e email then
                              let* p := get_prop u (str "password") in
                              Normal (strict_eq p password)
                            else Normal false) users) ;;
  if negb (truthy user) then io_ret (redirect "/")
  else
    token <- lift (createToken (JObject [(str "sub", email)])) ;;
    io_ret {| status := 302;
              location := Some (str "/profile");
              set_cookie := Some (SetCookieHeader
                                    (str "access_token=" ++ token ++ str "; HttpOnly"));
              body := NoBody |}.

Definition raw_post_logout : io response :=
  io_ret {| status := 302;
            location := Some (str "/");
            set_cookie := Some (SetCookieHeader (str "access_token=; Max-Age=0"));
            body := NoBody |}.

Definition is_request (m u : string) (req : request) : bool :=
  bool_decide (req_method req = str m) && bool_decide (req_url req = str u).

(** The callback of [http.createServer]. *)
Definition server (req : request) : io response :=
  if is_request "GET" "/" req then io_ret (send (HomePage "FaceLike (Minimal)"))
  else if is_request "GET" "/register" req then io_ret (send RegisterPage)
  else if is_request "GET" "/profile" req then raw_get_profile req
  else if is_request "POST" "/register" req then raw_post_register req
  else if is_request "POST" "/login" req then raw_post_login req
  else if is_request "POST" "/logout" req then raw_post_logout
  else io_ret {| status := 404; location := None; set_cookie := None;
                 body := PlainText "Not Found" |}.

(** ** The handlers of the Express application *)

Definition express_get_profile (req : request) : io response :=
  let token := obj_get (cookieParser req) (str "access_token") in
  payload <- lift (if truthy token then verifyToken token else Normal token) ;;
  if negb (truthy payload) then io_ret (redirect "/")
  else
    users <- readUsers ;;
    user <- lift (Array_find
                    (fun u => let* e := get_prop u (str "email") in
                              let* s := get_prop payload (str "sub") in
                              Normal (strict_eq e s)) users) ;;
    if negb (truthy user) then io_ret (redirect "/")
    else io_ret (send (ProfilePage user)).

Definition express_post_register (req : request) : io response :=
  let body := req_body req in
  let name := obj_get body (str "name") in
  let email := obj_get body (str "email") in
  let password := obj_get body (str "password") in
  users <- readUsers ;;
  found <- lift (Array_find
                   (fun u => let* e := get_prop u (str "email") in
                             Normal (strict_eq e email)) users) ;;
  if truthy found then io_ret (redirect "/register")
  else
    users <- lift (Array_push users
                     (JObject [(str "name", name); (str "email", email);
                               (str "password", password)])) ;;
    _ <- saveUsers users ;;
    token <- lift (createToken (JObject [(str "sub", email)])) ;;
    io_ret {| status := 302;
              location := Some (str "/profile");
              set_cookie := Some (ResCookie (str "access_token") token true);
              body := NoBody |}.

Definition express_post_login (req : request) : io response :=
  let body := req_body req in
  let email := obj_get body (str "email") in
  let password := obj_get body (str "password") in
  users <- readUsers ;;
  user <- lift (Array_find
                  (fun u => let* e := get_prop u (str "email") in
                            if strict_eq e email then
                              let* p := get_prop u (str "password") in
                              Normal (strict_eq p password)
                            else Normal false) users) ;;
  if negb (truthy user) then io_ret (redirect "/")
  else
    token <- lift (createToken (JObject [(str "sub", email)])) ;;
    io_ret {| status := 302;
              location := Some (str "/profile");
              set_cookie := Some (ResCookie (str "access_token") token true);
              body := NoBody |}.

Definition express_post_logout : io response :=
  io_ret {| status := 302;
            location := Some (str "/");
            set_cookie := Some (ResClearCookie (str "access_token"));
            body := NoBody |}.

(** The routes either program serves. *)
Inductive route :=
| GetHome | GetRegister | GetProfile | PostRegister | PostLogin | PostLogout.

Inductive variant := RawHttp | Express.

(** The handler a variant runs for a request on a route.  Which requests
    reach which route is decided by [server] in the plain variant and by
    Express's router in the other. *)
Definition handle (v : variant) (r : route) (req : request) : io response :=
  match v, r with
  | RawHttp, GetHome => io_ret (send (HomePage "FaceLike (Minimal)"))
  | RawHttp, GetRegister => io_ret (send RegisterPage)
  | RawHttp, GetProfile => raw_get_profile req
  | RawHttp, PostRegister => raw_post_register req
  | RawHttp, PostLogin => raw_post_login req
  | RawHttp, PostLogout => raw_post_logout
  | Express, GetHome => io_ret (send (HomePage "FaceLike (Express)"))
  | Express, GetRegister => io_ret (send RegisterPage)
  | Express, GetProfile => express_get_profile req
  | Express, PostRegister => express_post_register req
  | Express, PostLogin => express_post_login req
  | Express, PostLogout => express_post_logout
  end.

(** The method and URL the plain server compares a request with, for each
    route. *)
Definition route_line (r : route) : string * string :=
  match r with
  | GetHome => ("GET", "/")
  | GetRegister => ("GET", "/register")
  | GetProfile => ("GET", "/profile")
  | PostRegister => ("POST", "/register")
  | PostLogin => ("POST", "/login")
  | PostLogout => ("POST", "/logout")
  end%string.

(** The store after a sequence of requests. *)
Fixpoint run (v : variant) (ops : list (route * request)) (fs : filesystem) : filesystem :=
  match ops with
  | [] => fs
  | (r, req) :: ops' => run v ops' (fst (handle v r req fs))
  end.

(** ** User records and what a store holds *)

(** A user record as the store keeps it.  A field the registration form did
    not carry is [undefined] in the handler and absent from the file. *)
Record user := {
  u_name : option jsstring;
  u_email : option jsstring;
  u_password : option jsstring
}.

Definition field (k : string) (x : option jsstring) : list (jsstring * value) :=
  match x with
  | Some s => [(str k, JString s)]
  | None => []
  end.

Definition user_value (u : user) : value :=
  JObject (field "name" (u_name u) ++ field "email" (u_email u)
             ++ field "password" (u_password u)).

Definition users_value (us : list user) : value := JArray (map user_value us).

Definition wf_field (x : option jsstring) : Prop :=
  match x with
  | Some s => wf_string s
  | None => True
  end.

Definition wf_user (u : user) : Prop :=
  wf_field (u_name u) /\ wf_field (u_email u) /\ wf_field (u_password u).

(** The store holds the sequence [us]: that is what [readUsers] returns. *)
Definition store_holds (fs : filesystem) (us : list user) : Prop :=
  snd (readUsers fs) = Normal (users_value us).

(** The form of a request carries strings of 16-bit units. *)
Definition wf_request (req : request) : Prop :=
  Forall (fun kv => wf_string (snd kv)) (req_form req).

(** The claim [{ sub: email }]. *)
Definition claim (email : jsstring) : value := JObject [(str "sub", JString email)].

(** Values that [JSON.stringify] and [JSON.parse] carry without loss: no
    number, nothing that serialises to [undefined], distinct keys, and
    strings of 16-bit units. *)
Inductive json_ok : value -> Prop :=
| json_ok_null : json_ok JNull
| json_ok_bool b : json_ok (JBool b)
| json_ok_string s : wf_string s -> json_ok (JString s)
| json_ok_array vs : Forall json_ok vs -> json_ok (JArray vs)
| json_ok_object ms :
    NoDup (map fst ms) ->
    Forall (fun m => wf_string (fst m) /\ json_ok (snd m)) ms ->
    json_ok (JObject ms).

(** ** What a handler reads of a request, and the records of a store *)

(** The object a form handler destructures: the result of [parseBody] in
    the plain server, [req.body] in the Express application. *)
Definition body_of (v : variant) (req : request) : list (jsstring * value) :=
  match v with
  | RawHttp => parseBody req
  | Express => req_body req
  end.

(** The field [k] of the form, as the handler of the variant reads it:
    [undefined] when the object has no such property. *)
Definition submitted (v : variant) (req : request) (k : string) : value :=
  obj_get (body_of v req) (str k).

Definition is_object (u : value) : bool :=
  match u with
  | JObject _ => true
  | _ => false
  end.

(** [u.email] and [u.password] of a stored record. *)
Definition email_of (u : value) : value :=
  match u with
  | JObject ms => obj_get ms (str "email")
  | _ => JUndefined
  end.

Definition password_of (u : value) : value :=
  match u with
  | JObject ms => obj_get ms (str "password")
  | _ => JUndefined
  end.

(** [u.email === email], and
    [u.email === email && u.password === password]: the tests of the
    handlers.  An array or an object is [===] to nothing in the store. *)
Definition has_email (email u : value) : bool := strict_eq (email_of u) email.

Definition has_credentials (email password u : value) : bool :=
  has_email email u && strict_eq (password_of u) password.

(** The store holds the sequence [us] of records: [readUsers] returns that
    array, and its elements are objects. *)
Definition store_records (fs : filesystem) (us : list value) : Prop :=
  snd (readUsers fs) = Normal (JArray us) /\ Forall (fun u => is_object u = true) us.

(** A field that can be stored: [undefined] (it is left out of the file) or
    a value that JSON carries without loss.  Every string of 16-bit units
    is one, and so is every array or object of such strings. *)
Definition storable (x : value) : Prop := x = JUndefined \/ json_ok x.

Definition wf_body (v : variant) (req : request) : Prop :=
  storable (submitted v req "name")
  /\ storable (submitted v req "email")
  /\ storable (submitted v req "password").

(** The record [{ name, email, password }] as the file keeps it: a field
    that is [undefined] is not written. *)
Definition member (k : string) (x : value) : list (jsstring * value) :=
  match x with
  | JUndefined => []
  | _ => [(str k, x)]
  end.

Definition record (name email password : value) : value :=
  JObject (member "name" name ++ member "email" email ++ member "password" password).

(** The record a registration appends. *)
Definition new_record (v : variant) (req : request) : value :=
  record (submitted v req "name") (submitted v req "email") (submitted v req "password").

(** No two records of the sequence have e-mails that are [===]. *)
Fixpoint distinct_emails (us : list value) : Prop :=
  match us with
  | [] => True
  | u :: us' =>
    Forall (fun u' => has_email (email_of u') u = false) us' /\ distinct_emails us'
  end.

(** The e-mails of the sequence that are strings, in order. *)
Definition email_strings (us : list value) : list jsstring :=
  omap (fun u => match email_of u with
                 | JString s => Some s
                 | _ => None
                 end) us.

(** Putting a unit in front of a parsed string. *)
Definition scons (c : Z) (r : option (jsstring * jsstring)) : option (jsstring * jsstring) :=
  match r with
  | Some (t, rest) => Some (c :: t, rest)
  | None => None
  end.

(** The pieces [serialize] assembles for an array and for an object. *)
Definition element_text (gap indent : jsstring) (x : value) : jsstring :=
  match serialize gap indent x with
  | Some t => t
  | None => lit_null
  end.

Definition colon (gap : jsstring) : jsstring :=
  58 :: match gap with [] => [] | _ => [32] end.

Fixpoint member_texts (gap indent : jsstring) (ms : list (jsstring * value))
  : list jsstring :=
  match ms with
  | [] => []
  | (k, x) :: ms' =>
    match serialize gap indent x with
    | Some t => (quote k ++ colon gap ++ t) :: member_texts gap indent ms'
    | None => member_texts gap indent ms'
    end
  end.

(** A budget that suffices to parse the text of a value. *)
Fixpoint need (v : value) : nat :=
  match v with
  | JArray vs => S (fold_right (fun x n => S (need x + n)) O vs)
  | JObject ms => S (fold_right (fun m n => S (need (snd m) + n)) O ms)
  | _ => 1
  end.

Definition need_elements (vs : list value) : nat :=
  fold_right (fun x n => S (need x + n)) O vs.

Definition need_members (ms : list (jsstring * value)) : nat :=
  fold_right (fun m n => S (need (snd m) + n)) O ms.

(** The first character of the text of a value. *)
Definition value_start (c : Z) : bool :=
  (c =? 110) || (c =? 116) || (c =? 102) || (c =? 34) || (c =? 91) || (c =? 123).

Definition ws_only (s : jsstring) : Prop := Forall (fun c => is_ws c = true) s.

(** [v] serialises, at this indentation, to a text that parses back to [v]. *)
Definition reads_back (gap indent : jsstring) (v : value) : Prop :=
  exists t,
    serialize gap indent v = Some t
    /\ (exists c t', t = c :: t' /\ value_start c = true)
    /\ forall f rest, (need v <= f)%nat -> parse_value f (t ++ rest) = POk v rest.

(** A parsing result that stopped short of the input [s] without running
    out of budget. *)
Definition within (s : jsstring) (r : presult value) : Prop :=
  match r with
  | POk _ rest => (length rest < length s)%nat
  | PErr => True
  | PFuel => False
  end.

(** One segment of a token: the Base64 text of the JSON of [payload]. *)
Definition encode_segment (payload : value) : completion jsstring :=
  let* b := Buffer_from (JSON_stringify payload 0) in
  Normal (base64_encode b).

(** The token [token] with its payload segment replaced by [seg]. *)
Definition replace_payload (token seg : jsstring) : jsstring :=
  match split 46 token with
  | h :: _ :: tail => join [46] (h :: seg :: tail)
  | _ => token
  end.

(** The text [verifyToken] hands to [JSON.parse]. *)
Definition payload_text (token : jsstring) : jsstring :=
  utf8_decode (base64_decode (nth 1 (split 46 token) [])).

(** The first segment of every token. *)
Definition header_segment : jsstring :=
  Eval cbv in str "eyJhbGciOiJub25lIiwidHlwIjoiSldUIn0=".

(** A form field or record field as a value: absent is [undefined]. *)
Definition opt_value (x : option jsstring) : value :=
  match x with
  | Some s => JString s
  | None => JUndefined
  end.

(** The invariant of the store: it holds a sequence of records that JSON
    carries without loss, and no two of them have e-mails that are [===]. *)
Definition store_ok (fs : filesystem) : Prop :=
  exists us, store_records fs us /\ json_ok (JArray us) /\ distinct_emails us.

(** A response that redirects and sets no cookie. *)
Definition plain_redirect (target : string) (resp : response) : Prop :=
  status resp = 302 /\ location resp = Some (str target) /\ set_cookie resp = None.

(** The response to a successful registration or login: a redirect to the
    profile with the token of [email] in the cookie. *)
Definition session_response (v : variant) (email : value) (resp : response)
  : Prop :=
  status resp = 302
  /\ location resp = Some (str "/profile")
  /\ exists token,
       createToken (JObject [(str "sub", email)]) = Normal token
       /\ set_cookie resp
          = Some (match v with
                  | RawHttp =>
                    SetCookieHeader (str "access_token=" ++ token ++ str "; HttpOnly")
                  | Express => ResCookie (str "access_token") token true
                  end).

(** The normalisation the specification recommends for e-mail keys: trim,
    then lower-case.  The programs do not apply it. *)
Definition lower (c : Z) : Z := if (65 <=? c) && (c <=? 90) then c + 32 else c.

Definition normalize_email (s : jsstring) : jsstring := map lower (trim s).

(** How the cookie of a plain response and the cookie of an Express
    response correspond. *)
Definition cookies_agree (raw express : option cookie_action) : Prop :=
  match raw, express with
  | None, None => True
  | Some (SetCookieHeader h), Some (ResCookie n v true) =>
    h = n ++ [61] ++ v ++ str "; HttpOnly"
  | Some (SetCookieHeader h), Some (ResClearCookie n) =>
    h = n ++ str "=; Max-Age=0"
  | _, _ => False
  end.

(** The two variants answer alike: the same file system, and the same
    status, redirect target and page with corresponding cookies, or the same
    exception. *)
Definition same_outcome (raw express : filesystem * completion response) : Prop :=
  fst raw = fst express
  /\ match snd raw, snd express with
     | Normal a, Normal b =>
       status a = status b /\ location a = location b /\ body a = body b
       /\ cookies_agree (set_cookie a) (set_cookie b)
     | Throw e, Throw e' => e = e'
     | Fuel, Fuel => True
     | _, _ => False
     end.

(** ** Sample requests *)

(** A form whose fields have distinct names without brackets: the plain
    server iterates over the pairs, and [req.body] of the Express application
    has one string for each. *)
Definition post_form (url : string) (fields : list (string * string)) : request :=
  {| req_method := str "POST"; req_url := str url; req_cookie := None;
     req_form := map (fun kv => (str (fst kv), str (snd kv))) fields;
     req_body := map (fun kv => (str (fst kv), JString (str (snd kv)))) fields |}.

Definition register_ann : request :=
  post_form "/register" [("name", "Ann"); ("email", "a@x.com"); ("password", "p")]%string.

Definition register_bob_upper : request :=
  post_form "/register" [("name", "Bob"); ("email", "A@x.com"); ("password", "q")]%string.

Definition login_ann_wrong : request :=
  post_form "/login" [("email", "a@x.com"); ("password", "wrong")]%string.

Definition ann : user :=
  {| u_name := Some (str "Ann"); u_email := Some (str "a@x.com");
     u_password := Some (str "p") |}.

Definition bob_upper : user :=
  {| u_name := Some (str "Bob"); u_email := Some (str "A@x.com");
     u_password := Some (str "q") |}.

(** The store after Ann registered with the plain server. *)
Definition store_ann : filesystem := fst (server register_ann ∅).

(** The token both variants issue for Ann. *)
Definition token_ann : jsstring :=
  Eval cbv in str "eyJhbGciOiJub25lIiwidHlwIjoiSldUIn0=.eyJzdWIiOiJhQHguY29tIn0=.".

(** The request a client sends for the profile once it holds that token in
    the cookie [access_token]. *)
Definition profile_ann : request :=
  {| req_method := str "GET"; req_url := str "/profile";
     req_cookie := Some (str "access_token=" ++ token_ann);
     req_form := []; req_body := [] |}.

(** The last value sent for the field [k], if any. *)
Definition last_field (k : jsstring) (form : list (jsstring * jsstring)) : option jsstring :=
  fold_left (fun r kv => if bool_decide (fst kv = k) then Some (snd kv) else r) form None.

(** A login request with the given e-mail and password. *)
Definition login_request (email password : string) : request :=
  post_form "/login" [("email", email); ("password", password)]%string.

(** ** The profile handlers, by their parts *)

(** What both profile handlers do once they hold the value of the cookie
    [access_token]. *)
Definition profile_tail (token : value) : io response :=
  payload <- lift (if truthy token then verifyToken token else Normal token) ;;
  if negb (truthy payload) then io_ret (redirect "/")
  else
    users <- readUsers ;;
    user <- lift (Array_find
                    (fun u => let* e := get_prop u (str "email") in
                              let* s := get_prop payload (str "sub") in
                              Normal (strict_eq e s)) users) ;;
    if negb (truthy user) then io_ret (redirect "/")
    else io_ret (send (ProfilePage user)).

(** ** The form handlers, by their parts *)

(** How a variant hands the token to the client. *)
Definition token_cookie (v : variant) (token : jsstring) : cookie_action :=
  match v with
  | RawHttp => SetCookieHeader (str "access_token=" ++ token ++ str "; HttpOnly")
  | Express => ResCookie (str "access_token") token true
  end.

(** What both registration handlers do once they hold the three fields. *)
Definition register_tail (v : variant) (name email password : value) : io response :=
  users <- readUsers ;;
  found <- lift (Array_find
                   (fun u => let* e := get_prop u (str "email") in
                             Normal (strict_eq e email)) users) ;;
  if truthy found then io_ret (redirect "/register")
  else
    users <- lift (Array_push users
                     (JObject [(str "name", name); (str "email", email);
                               (str "password", password)])) ;;
    _ <- saveUsers users ;;
    token <- lift (createToken (JObject [(str "sub", email)])) ;;
    io_ret {| status := 302;
              location := Some (str "/profile");
              set_cookie := Some (token_cookie v token);
              body := NoBody |}.

(** What both login handlers do once they hold the two fields. *)
Definition login_tail (v : variant) (email password : value) : io response :=
  users <- readUsers ;;
  user <- lift (Array_find
                  (fun u => let* e := get_prop u (str "email") in
                            if strict_eq e email then
                              let* p := get_prop u (str "password") in
                              Normal (strict_eq p password)
                            else Normal false) users) ;;
  if negb (truthy user) then io_ret (redirect "/")
  else
    token <- lift (createToken (JObject [(str "sub", email)])) ;;
    io_ret {| status := 302;
              location := Some (str "/profile");
              set_cookie := Some (token_cookie v token);
              body := NoBody |}.

(** A field that is a string, or absent: such a value is [===] to
    itself. *)
Definition is_text (x : value) : bool :=
  match x with
  | JUndefined | JString _ => true
  | _ => false
  end.

(** The value of the cookie [access_token] as each variant reads it:
    [parseCookies(req)["access_token"]] and [req.cookies["access_token"]]. *)
Definition session_cookie (v : variant) (req : request) : completion value :=
  match v with
  | RawHttp => let* cookies := parseCookies req in
               Normal (obj_get cookies (str "access_token"))
  | Express => Normal (obj_get (cookieParser req) (str "access_token"))
  end.

(** The name and the value [parseCookies] takes from one piece of the
    header. *)
Definition cookie_name (piece : jsstring) : jsstring :=
  trim (nth 0 (split 61 piece) []).

Definition cookie_text (piece : jsstring) : completion jsstring :=
  decodeURIComponent (nth 1 (split 61 piece) (str "undefined")).

(** The value of the last piece named [k], if any. *)
Definition last_cookie (k : jsstring) (pieces : list jsstring) : option jsstring :=
  fold_left (fun r piece =>
               if bool_decide (cookie_name piece = k) then
                 match cookie_text piece with
                 | Normal v => Some v
                 | _ => r
                 end
               else r) pieces None.

(** The header segment without its padding. *)
Definition header_unpadded : jsstring :=
  Eval cbv in str "eyJhbGciOiJub25lIiwidHlwIjoiSldUIn0".

(** A profile request with the given [Cookie] header. *)
Definition profile_request (cookie : jsstring) : request :=
  {| req_method := str "GET"; req_url := str "/profile";
     req_cookie := Some cookie; req_form := []; req_body := [] |}.

(** A profile request without [Cookie] header. *)
Definition profile_anonymous : request :=
  {| req_method := str "GET"; req_url := str "/profile";
     req_cookie := None; req_form := []; req_body := [] |}.


(** A form in which the field [email] is sent twice, as each program gets
    it: the plain server iterates over three pairs, the [urlencoded]
    middleware leaves an array in [req.body.email]. *)
Definition repeated_email (url : string) : request :=
  {| req_method := str "POST"; req_url := str url; req_cookie := None;
     req_form := [(str "email", str "zz"); (str "email", str "a@x.com");
                  (str "password", str "p")];
     req_body := [(str "email", JArray [JString (str "zz"); JString (str "a@x.com")]);
                  (str "password", JString (str "p"))] |}.

(** The record the Express application stores for that form. *)
Definition record_repeated : value :=
  JObject [(str "email", JArray [JString (str "zz"); JString (str "a@x.com")]);
           (str "password", JString (str "p"))].
(** * Properties *)

(** ** Base64 *)

(** Case analysis on the comparisons of the goal, dropping at once the
    branches the hypotheses exclude. *)
Ltac zcase :=
  match goal with
  | |- context [?a <? ?b] => destruct (Z.ltb_spec a b)
  | |- context [?a <=? ?b] => destruct (Z.leb_spec a b)
  | |- context [?a =? ?b] => destruct (Z.eqb_spec a b)
  end; try (exfalso; lia); cbn [andb orb negb].

Ltac zcases := repeat zcase.

Lemma unbase64_b64char v : 0 <= v < 64 -> unbase64 (b64char v) = Some v.
Proof.
  intros Hv. unfold b64char. zcases; unfold unbase64; zcases; f_equal; lia.
Qed.

Lemma b64char_not v c :
  0 <= v < 64 -> c = 61 \/ c = 46 -> (b64char v =? c) = false.
Proof.
  intros Hv Hc. apply Z.eqb_neq. unfold b64char. zcases; lia.
Qed.

Lemma sextets_b64char v s :
  0 <= v < 64 -> base64_sextets (b64char v :: s) = v :: base64_sextets s.
Proof.
  intros Hv. simpl. rewrite b64char_not by (auto with zarith).
  now rewrite unbase64_b64char.
Qed.

Lemma list_ind3 {A} (P : list A -> Prop) :
  P [] -> (forall a, P [a]) -> (forall a b, P [a; b]) ->
  (forall a b c l, P l -> P (a :: b :: c :: l)) ->
  forall l, P l.
Proof.
  intros H0 H1 H2 H3.
  fix IH 1. intros [|a [|b [|c l]]]; [exact H0|apply H1|apply H2|apply H3, IH].
Qed.

Lemma base64_decode_encode bs :
  wf_buffer bs -> base64_decode (base64_encode bs) = bs.
Proof.
  unfold base64_decode, wf_buffer, wf_byte.
  induction bs as [|a|a b|a b c l IH] using list_ind3; intros Hwf.
  - reflexivity.
  - apply Forall_cons in Hwf as [Ha _]. cbn [base64_encode].
    rewrite !sextets_b64char by lia. simpl. f_equal. lia.
  - apply Forall_cons in Hwf as [Ha Hwf]. apply Forall_cons in Hwf as [Hb _].
    cbn [base64_encode]. rewrite !sextets_b64char by lia. simpl.
    f_equal; [lia|]. f_equal. lia.
  - apply Forall_cons in Hwf as [Ha Hwf]. apply Forall_cons in Hwf as [Hb Hwf].
    apply Forall_cons in Hwf as [Hc Hwf].
    cbn [base64_encode]. rewrite !sextets_b64char by lia.
    cbn [base64_bytes]. rewrite IH by assumption.
    f_equal; [lia|]. f_equal; [lia|]. f_equal. lia.
Qed.

Lemma base64_encode_no_dot bs :
  wf_buffer bs -> Forall (fun c => c <> 46) (base64_encode bs).
Proof.
  unfold wf_buffer, wf_byte.
  assert (Hn : forall v, 0 <= v < 64 -> b64char v <> 46).
  { intros v Hv. apply Z.eqb_neq, b64char_not; auto. }
  induction bs as [|a|a b|a b c l IH] using list_ind3; intros Hwf; cbn [base64_encode].
  - constructor.
  - apply Forall_cons in Hwf as [Ha _].
    repeat constructor; try apply Hn; lia.
  - apply Forall_cons in Hwf as [Ha Hwf]. apply Forall_cons in Hwf as [Hb _].
    repeat constructor; try apply Hn; lia.
  - apply Forall_cons in Hwf as [Ha Hwf]. apply Forall_cons in Hwf as [Hb Hwf].
    apply Forall_cons in Hwf as [Hc Hwf].
    repeat (constructor; [apply Hn; lia|]). auto.
Qed.

(** ** UTF-8 *)

Lemma list_ind_pair {A} (P : list A -> Prop) :
  P [] -> (forall a, P [a]) ->
  (forall a b l, P (b :: l) -> P l -> P (a :: b :: l)) ->
  forall l, P l.
Proof.
  intros H0 H1 H2 l.
  assert (H : P l /\ forall a, P (a :: l)); [|exact (proj1 H)].
  induction l as [|b l [IH1 IH2]]; split; auto.
Qed.

Lemma wf_buffer_app a b : wf_buffer a -> wf_buffer b -> wf_buffer (a ++ b).
Proof. apply Forall_app_2. Qed.

Lemma utf8_encode_wf s : wf_string s -> wf_buffer (utf8_encode s).
Proof.
  unfold wf_string, wf_buffer, wf_unit, wf_byte.
  assert (Hrep : Forall wf_byte replacement).
  { unfold replacement, wf_byte. repeat constructor; lia. }
  induction s as [|a|a b l IH1 IH2] using list_ind_pair; intros Hwf.
  - constructor.
  - apply Forall_cons in Hwf as [Ha _]. cbn [utf8_encode].
    zcase; [repeat constructor; lia|].
    zcase; [repeat constructor; lia|].
    destruct (is_high a); [exact Hrep|].
    destruct (is_low a); [apply Forall_app_2; [exact Hrep|constructor]|].
    repeat constructor; lia.
  - apply Forall_cons in Hwf as [Ha Hwf]. specialize (IH1 Hwf).
    pose proof Hwf as Hwf'. apply Forall_cons in Hwf' as [Hb Hl]. specialize (IH2 Hl).
    cbn [utf8_encode] in *.
    zcase; [constructor; [unfold wf_byte; lia|exact IH1]|].
    zcase; [repeat (constructor; [unfold wf_byte; lia|]); exact IH1|].
    destruct (is_high a) eqn:Hh.
    + destruct (is_low b) eqn:Hlo.
      * unfold is_high, is_low in Hh, Hlo.
        repeat (constructor; [unfold wf_byte; lia|]). exact IH2.
      * apply Forall_app_2; [exact Hrep|exact IH1].
    + destruct (is_low a); [apply Forall_app_2; [exact Hrep|exact IH1]|].
      repeat (constructor; [unfold wf_byte; lia|]). exact IH1.
Qed.

Lemma utf8_decode_1 b r :
  0 <= b < 128 -> utf8_decode (b :: r) = b :: utf8_decode r.
Proof.
  intros. cbn [utf8_decode]. replace (b <? 128) with true by lia. reflexivity.
Qed.

Lemma utf8_decode_2 b c1 r :
  194 <= b <= 223 -> 128 <= c1 <= 191 ->
  utf8_decode (b :: c1 :: r) = ((b - 192) * 64 + (c1 - 128)) :: utf8_decode r.
Proof.
  intros. cbn [utf8_decode]. unfold is_cont.
  replace (b <? 128) with false by lia.
  replace ((194 <=? b) && (b <=? 223)) with true by lia.
  replace ((128 <=? c1) && (c1 <=? 191)) with true by lia. reflexivity.
Qed.

Lemma utf8_decode_3 b c1 c2 r :
  224 <= b <= 239 -> second_ok b c1 = true -> 128 <= c2 <= 191 ->
  utf8_decode (b :: c1 :: c2 :: r)
  = ((b - 224) * 4096 + (c1 - 128) * 64 + (c2 - 128)) :: utf8_decode r.
Proof.
  intros Hb H1 H2. cbn [utf8_decode]. rewrite H1. unfold is_cont.
  replace (b <? 128) with false by lia.
  replace ((194 <=? b) && (b <=? 223)) with false by lia.
  replace ((224 <=? b) && (b <=? 239)) with true by lia.
  replace ((128 <=? c2) && (c2 <=? 191)) with true by lia. reflexivity.
Qed.

Lemma utf8_decode_4 b c1 c2 c3 r :
  240 <= b <= 244 -> second_ok b c1 = true ->
  128 <= c2 <= 191 -> 128 <= c3 <= 191 ->
  utf8_decode (b :: c1 :: c2 :: c3 :: r)
  = let cp := (b - 240) * 262144 + (c1 - 128) * 4096 + (c2 - 128) * 64 + (c3 - 128) in
    (55296 + (cp - 65536) / 1024) :: (56320 + (cp - 65536) mod 1024)
      :: utf8_decode r.
Proof.
  intros Hb H1 H2 H3. cbn [utf8_decode]. rewrite H1. unfold is_cont.
  replace (b <? 128) with false by lia.
  replace ((194 <=? b) && (b <=? 223)) with false by lia.
  replace ((224 <=? b) && (b <=? 239)) with false by lia.
  replace ((240 <=? b) && (b <=? 244)) with true by lia.
  replace ((128 <=? c2) && (c2 <=? 191)) with true by lia.
  replace ((128 <=? c3) && (c3 <=? 191)) with true by lia. reflexivity.
Qed.

(** Decoding undoes encoding on well-formed UTF-16. *)
Lemma utf8_decode_encode s : utf16_ok s -> utf8_decode (utf8_encode s) = s.
Proof.
  induction 1 as [|c s Hc Hs _ IH|h l s Hh Hl _ IH].
  - reflexivity.
  - unfold wf_unit in Hc. unfold is_surrogate in Hs. cbn [utf8_encode].
    destruct (Z.ltb_spec c 128).
    { rewrite utf8_decode_1 by lia. now rewrite IH. }
    destruct (Z.ltb_spec c 2048).
    { rewrite utf8_decode_2 by lia. rewrite IH. f_equal. lia. }
    replace (is_high c) with false by (unfold is_high; lia).
    replace (is_low c) with false by (unfold is_low; lia).
    rewrite utf8_decode_3; [rewrite IH; f_equal; lia|lia| |lia].
    unfold second_ok, is_cont. zcases; lia.
  - unfold is_high in Hh. unfold is_low in Hl. cbn [utf8_encode].
    replace (h <? 128) with false by lia.
    replace (h <? 2048) with false by lia.
    replace (is_high h) with true by (unfold is_high; lia).
    replace (is_low l) with true by (unfold is_low; lia).
    cbv zeta.
    set (cp := 65536 + (h - 55296) * 1024 + (l - 56320)).
    assert (Hcp : 65536 <= cp <= 1114111) by (unfold cp; lia).
    rewrite utf8_decode_4; [|lia| |lia|lia].
    + cbv zeta. rewrite IH.
      replace ((240 + cp / 262144 - 240) * 262144 + (128 + (cp / 4096) mod 64 - 128) * 4096
               + (128 + (cp / 64) mod 64 - 128) * 64 + (128 + cp mod 64 - 128))
        with cp by lia.
      f_equal; [unfold cp; lia|]. f_equal. unfold cp; lia.
    + unfold second_ok, is_cont. zcases; lia.
Qed.

Lemma utf16_ok_app s t : utf16_ok s -> utf16_ok t -> utf16_ok (s ++ t).
Proof.
  induction 1; intros Ht; simpl;
    [assumption|apply utf16_bmp; auto|apply utf16_pair; auto].
Qed.

Lemma utf16_ok_wf s : utf16_ok s -> wf_string s.
Proof.
  unfold wf_string, wf_unit.
  induction 1 as [|c s Hc Hs _ IH|h l s Hh Hl _ IH].
  - constructor.
  - constructor; assumption.
  - unfold is_high in Hh. unfold is_low in Hl.
    constructor; [lia|]. constructor; [lia|assumption].
Qed.

(** A string of ASCII units is well-formed UTF-16. *)
Lemma utf16_ok_ascii s : Forall (fun c => 0 <= c < 128) s -> utf16_ok s.
Proof.
  induction 1 as [|c s Hc _ IH]; [constructor|].
  apply utf16_bmp; [unfold wf_unit; lia|unfold is_surrogate; lia|exact IH].
Qed.

(** ** String literals: [quote] and [parse_string_chars] *)

Lemma hex_value_digit v : 0 <= v < 16 -> hex_value (hex_digit v) = Some v.
Proof.
  intros Hv. unfold hex_digit. zcases; unfold hex_value; zcases; f_equal; lia.
Qed.

Lemma hex_digit_range v : 0 <= v < 16 -> 48 <= hex_digit v <= 102.
Proof. intros Hv. unfold hex_digit. zcases; lia. Qed.

Lemma parse_unicode_escape c r :
  wf_unit c ->
  parse_string_chars (unicode_escape c ++ r) = scons c (parse_string_chars r).
Proof.
  unfold wf_unit. intros Hc. unfold unicode_escape.
  cbn [app parse_string_chars]. cbn [Z.eqb Pos.eqb].
  rewrite !hex_value_digit by lia.
  replace (c / 4096 * 4096 + c / 256 mod 16 * 256 + c / 16 mod 16 * 16 + c mod 16)
    with c by lia.
  reflexivity.
Qed.

Lemma parse_short_escape c e r :
  short_escape c = Some e ->
  parse_string_chars (92 :: e :: r) = scons c (parse_string_chars r).
Proof.
  unfold short_escape. intros He.
  repeat match type of He with
         | context [?a =? ?b] => destruct (Z.eqb_spec a b)
         end; inversion He; subst; reflexivity.
Qed.

Lemma parse_plain_unit c r :
  32 <= c -> c <> 34 -> c <> 92 ->
  parse_string_chars (c :: r) = scons c (parse_string_chars r).
Proof.
  intros H1 H2 H3. cbn [parse_string_chars].
  replace (c =? 34) with false by lia. replace (c =? 92) with false by lia.
  replace (c <? 32) with false by lia. reflexivity.
Qed.

Lemma short_escape_none c :
  short_escape c = None -> 32 <= c -> c <> 34 /\ c <> 92.
Proof.
  unfold short_escape. intros He Hc.
  repeat match type of He with
         | context [?a =? ?b] => destruct (Z.eqb_spec a b)
         end; try discriminate; lia.
Qed.

Lemma quote_chars_cons2 a b l :
  quote_chars (a :: b :: l)
  = match short_escape a with
    | Some e => 92 :: e :: quote_chars (b :: l)
    | None =>
      if a <? 32 then unicode_escape a ++ quote_chars (b :: l)
      else if is_high a then
        if is_low b then a :: b :: quote_chars l
        else unicode_escape a ++ quote_chars (b :: l)
      else if is_low a then unicode_escape a ++ quote_chars (b :: l)
      else a :: quote_chars (b :: l)
    end.
Proof. reflexivity. Qed.

(** Reading back a quoted string gives the string. *)
Lemma parse_quote_chars s rest :
  wf_string s -> parse_string_chars (quote_chars s ++ 34 :: rest) = Some (s, rest).
Proof.
  unfold wf_string.
  induction s as [|a|a b l IH1 IH2] using list_ind_pair; intros Hwf.
  - reflexivity.
  - apply Forall_cons in Hwf as [Ha _]. cbn [quote_chars].
    destruct (short_escape a) as [e|] eqn:He.
    { cbn [app]. now rewrite (parse_short_escape a e). }
    destruct (Z.ltb_spec a 32).
    { now rewrite <- app_assoc, parse_unicode_escape. }
    destruct (short_escape_none a He) as [H1 H2]; [lia|].
    destruct (is_high a); [now rewrite parse_unicode_escape|].
    destruct (is_low a); [now rewrite <- app_assoc, parse_unicode_escape|].
    cbn [app]. now rewrite parse_plain_unit.
  - apply Forall_cons in Hwf as [Ha Hwf]. specialize (IH1 Hwf).
    pose proof Hwf as Hwf'. apply Forall_cons in Hwf' as [Hb Hl]. specialize (IH2 Hl).
    rewrite quote_chars_cons2.
    destruct (short_escape a) as [e|] eqn:He.
    { rewrite <- !app_comm_cons, (parse_short_escape a e) by assumption.
      now rewrite IH1. }
    destruct (Z.ltb_spec a 32).
    { rewrite <- app_assoc, parse_unicode_escape by assumption. now rewrite IH1. }
    destruct (short_escape_none a He) as [H1 H2]; [lia|].
    destruct (is_high a) eqn:Hh.
    + destruct (is_low b) eqn:Hlo.
      * unfold is_low in Hlo. rewrite <- !app_comm_cons.
        rewrite parse_plain_unit by assumption.
        rewrite parse_plain_unit by lia. now rewrite IH2.
      * rewrite <- app_assoc, parse_unicode_escape by assumption. now rewrite IH1.
    + destruct (is_low a).
      * rewrite <- app_assoc, parse_unicode_escape by assumption. now rewrite IH1.
      * rewrite <- app_comm_cons, parse_plain_unit by assumption. now rewrite IH1.
Qed.

Lemma unicode_escape_ascii c :
  wf_unit c -> Forall (fun x => 0 <= x < 128) (unicode_escape c).
Proof.
  unfold wf_unit. intros Hc. unfold unicode_escape.
  repeat (constructor; [first [lia | pose proof (hex_digit_range (c / 4096));
                                      pose proof (hex_digit_range (c / 256 mod 16));
                                      pose proof (hex_digit_range (c / 16 mod 16));
                                      pose proof (hex_digit_range (c mod 16)); lia]|]).
  constructor.
Qed.

Lemma short_escape_ascii c e : short_escape c = Some e -> 0 <= e < 128.
Proof.
  unfold short_escape. intros He.
  repeat match type of He with
         | context [?a =? ?b] => destruct (Z.eqb_spec a b)
         end; inversion He; lia.
Qed.

(** A quoted string has no lone surrogate, whatever the string. *)
Lemma quote_chars_utf16 s : wf_string s -> utf16_ok (quote_chars s).
Proof.
  unfold wf_string.
  induction s as [|a|a b l IH1 IH2] using list_ind_pair; intros Hwf.
  - constructor.
  - apply Forall_cons in Hwf as [Ha _]. cbn [quote_chars].
    pose proof (utf16_ok_ascii _ (unicode_escape_ascii a Ha)) as Hu.
    destruct (short_escape a) as [e|] eqn:He.
    { apply utf16_ok_ascii. pose proof (short_escape_ascii a e He).
      repeat constructor; lia. }
    destruct (Z.ltb_spec a 32).
    { rewrite app_nil_r. exact Hu. }
    destruct (is_high a) eqn:Hh; [exact Hu|].
    destruct (is_low a) eqn:Hlo; [rewrite app_nil_r; exact Hu|].
    apply utf16_bmp; [exact Ha| |constructor].
    unfold is_high, is_low in *. unfold is_surrogate. lia.
  - apply Forall_cons in Hwf as [Ha Hwf]. specialize (IH1 Hwf).
    pose proof Hwf as Hwf'. apply Forall_cons in Hwf' as [Hb Hl]. specialize (IH2 Hl).
    pose proof (utf16_ok_ascii _ (unicode_escape_ascii a Ha)) as Hu.
    rewrite quote_chars_cons2.
    destruct (short_escape a) as [e|] eqn:He.
    { pose proof (short_escape_ascii a e He).
      apply utf16_bmp; [unfold wf_unit; lia|unfold is_surrogate; lia|].
      apply utf16_bmp; [unfold wf_unit; lia|unfold is_surrogate; lia|exact IH1]. }
    destruct (Z.ltb_spec a 32).
    { apply utf16_ok_app; assumption. }
    destruct (is_high a) eqn:Hh.
    + destruct (is_low b) eqn:Hlo.
      * apply utf16_pair; assumption.
      * apply utf16_ok_app; assumption.
    + destruct (is_low a) eqn:Hlo; [apply utf16_ok_app; assumption|].
      apply utf16_bmp; [exact Ha| |exact IH1].
      unfold is_high, is_low in *. unfold is_surrogate. lia.
Qed.

Lemma quote_utf16 s : wf_string s -> utf16_ok (quote s).
Proof.
  intros Hs. unfold quote.
  apply utf16_bmp; [unfold wf_unit; lia|reflexivity|].
  apply utf16_ok_app; [apply quote_chars_utf16, Hs|].
  apply utf16_bmp; [unfold wf_unit; lia|reflexivity|constructor].
Qed.

(** ** [JSON.parse] reads back what [JSON.stringify] writes *)

Lemma serialize_array gap indent vs :
  serialize gap indent (JArray vs)
  = Some (wrap 91 93 gap indent (indent ++ gap)
            (map (element_text gap (indent ++ gap)) vs)).
Proof. reflexivity. Qed.

Lemma serialize_object gap indent ms :
  serialize gap indent (JObject ms)
  = Some (wrap 123 125 gap indent (indent ++ gap)
            (member_texts gap (indent ++ gap) ms)).
Proof.
  cbn [serialize]. f_equal. f_equal.
  induction ms as [|[k x] l IH]; [reflexivity|]. cbn [member_texts].
  rewrite <- IH. reflexivity.
Qed.

Lemma join_cons sep p ps :
  join sep (p :: ps) = p ++ match ps with [] => [] | _ :: _ => sep ++ join sep ps end.
Proof. destruct ps; cbn [join]; [now rewrite app_nil_r|reflexivity]. Qed.

Lemma wrap_shape o c gap stepback indent p ps :
  ws_only indent -> ws_only stepback ->
  exists w1 w2,
    ws_only w1 /\ ws_only w2 /\
    wrap o c gap stepback indent (p :: ps)
    = o :: w1 ++ join (44 :: w1) (p :: ps) ++ w2 ++ [c].
Proof.
  intros Hi Hs. destruct gap as [|g gap].
  - exists [], []. repeat split; constructor.
  - exists (10 :: indent), (10 :: stepback).
    split; [constructor; [reflexivity|exact Hi]|].
    split; [constructor; [reflexivity|exact Hs]|].
    unfold wrap. rewrite <- !app_comm_cons. reflexivity.
Qed.

Lemma skip_ws_app w s : ws_only w -> skip_ws (w ++ s) = skip_ws s.
Proof.
  induction 1 as [|c w Hc _ IH]; [reflexivity|].
  cbn [app skip_ws]. now rewrite Hc.
Qed.

Lemma skip_ws_stop c s : is_ws c = false -> skip_ws (c :: s) = c :: s.
Proof. intros H. cbn [skip_ws]. now rewrite H. Qed.

Lemma value_start_not_ws c : value_start c = true -> is_ws c = false.
Proof. unfold value_start, is_ws. lia. Qed.

Lemma ws_only_app a b : ws_only a -> ws_only b -> ws_only (a ++ b).
Proof. apply Forall_app_2. Qed.

(** The elements of an array, after the opening bracket. *)
Lemma parse_elements_texts gap indent w1 w2 vs :
  ws_only w1 -> ws_only w2 ->
  Forall (reads_back gap indent) vs ->
  vs <> [] ->
  forall acc f rest,
    (need_elements vs <= f)%nat ->
    parse_elements f
      (join (44 :: w1) (map (element_text gap indent) vs) ++ w2 ++ 93 :: rest) acc
    = POk (JArray (acc ++ vs)) rest.
Proof.
  intros Hw1 Hw2 Hall. induction Hall as [|v vs Hv Hvs IH]; [congruence|].
  intros _ acc f rest Hf.
  destruct Hv as (t & Ht & _ & Hparse).
  cbn [map]. unfold element_text at 1. rewrite Ht.
  cbn [need_elements fold_right] in Hf. fold (need_elements vs) in Hf.
  destruct f as [|f]; [lia|]. cbn [parse_elements].
  rewrite join_cons, <- app_assoc.
  rewrite Hparse by lia.
  destruct vs as [|v' vs'].
  - cbn [map app]. rewrite skip_ws_app by assumption.
    rewrite skip_ws_stop by reflexivity. cbn [Z.eqb Pos.eqb]. reflexivity.
  - cbn [map]. cbn [map] in IH.
    rewrite <- app_assoc, <- app_comm_cons.
    rewrite skip_ws_stop by reflexivity. cbn [Z.eqb Pos.eqb].
    rewrite skip_ws_app by assumption.
    apply Forall_cons in Hvs as Hvs'. destruct Hvs' as [Hv' _].
    destruct Hv' as (t' & Ht' & (c & t'' & -> & Hc) & _).
    assert (Hskip : forall s,
               skip_ws (join (44 :: w1) (element_text gap indent v'
                                           :: map (element_text gap indent) vs') ++ s)
               = join (44 :: w1) (element_text gap indent v'
                                    :: map (element_text gap indent) vs') ++ s).
    { intros s. unfold element_text at 1 3. rewrite Ht'.
      rewrite join_cons, <- !app_comm_cons.
      apply skip_ws_stop, value_start_not_ws, Hc. }
    rewrite Hskip.
    rewrite IH by (congruence || lia).
    now rewrite <- app_assoc.
Qed.

Lemma obj_set_fresh acc k v :
  k ∉ map fst acc -> obj_set acc k v = acc ++ [(k, v)].
Proof.
  induction acc as [|[k' v'] acc IH]; intros Hk; [reflexivity|].
  cbn [obj_set map fst] in *. apply not_elem_of_cons in Hk as [Hne Hk].
  rewrite bool_decide_eq_false_2 by congruence.
  cbn [app]. now rewrite IH.
Qed.

Lemma parse_quote_tail s rest :
  wf_string s -> parse_string_chars ((quote_chars s ++ [34]) ++ rest) = Some (s, rest).
Proof. intros Hs. rewrite <- app_assoc. now apply parse_quote_chars. Qed.

Lemma colon_shape gap : exists w, ws_only w /\ colon gap = 58 :: w.
Proof.
  destruct gap; [exists []|exists [32]]; split; try reflexivity; repeat constructor.
Qed.

(** The members of an object, after the opening brace. *)
Lemma parse_members_texts gap indent w1 w2 ms :
  ws_only w1 -> ws_only w2 ->
  Forall (fun m => wf_string (fst m) /\ reads_back gap indent (snd m)) ms ->
  ms <> [] ->
  forall acc f rest,
    NoDup (map fst (acc ++ ms)) ->
    (need_members ms <= f)%nat ->
    parse_members f
      (join (44 :: w1) (member_texts gap indent ms) ++ w2 ++ 125 :: rest) acc
    = POk (JObject (acc ++ ms)) rest.
Proof.
  intros Hw1 Hw2 Hall. induction Hall as [|[k v] ms [Hk Hv] Hms IH]; [congruence|].
  intros _ acc f rest Hnd Hf.
  cbn [fst snd] in Hk, Hv.
  destruct Hv as (t & Ht & (c & t0 & Htc & Hc) & Hparse).
  cbn [member_texts]. rewrite Ht.
  cbn [need_members fold_right snd] in Hf. fold (need_members ms) in Hf.
  destruct f as [|f]; [lia|]. cbn [parse_members].
  destruct (colon_shape gap) as (cw & Hcw & ->).
  assert (Hfresh : k ∉ map fst acc).
  { rewrite map_app in Hnd. apply NoDup_app in Hnd as (_ & Hd & _).
    intros Hin. apply (Hd k Hin). cbn [map fst]. apply elem_of_cons. now left. }
  assert (Hval : forall s, skip_ws (cw ++ t ++ s) = t ++ s).
  { intros s. rewrite skip_ws_app by assumption. rewrite Htc, <- app_comm_cons.
    now apply skip_ws_stop, value_start_not_ws. }
  rewrite join_cons. unfold quote.
  rewrite <- !app_assoc, <- !app_comm_cons. cbn [Z.eqb Pos.eqb].
  rewrite parse_quote_tail by assumption.
  rewrite skip_ws_stop by reflexivity. cbn [Z.eqb Pos.eqb].
  rewrite Hval, Hparse by lia.
  rewrite obj_set_fresh by assumption.
  assert (Hnd' : NoDup (map fst ((acc ++ [(k, v)]) ++ ms))) by now rewrite <- app_assoc.
  destruct ms as [|[k' v'] ms'].
  - cbn [member_texts app]. rewrite skip_ws_app by assumption.
    rewrite skip_ws_stop by reflexivity. cbn [Z.eqb Pos.eqb]. reflexivity.
  - assert (Hhead : exists s0, join (44 :: w1) (member_texts gap indent ((k', v') :: ms'))
                               = 34 :: s0).
    { apply Forall_cons in Hms as [[_ Hv'] _]. destruct Hv' as (t' & Ht' & _).
      cbn [member_texts snd] in *. rewrite Ht'. unfold quote.
      rewrite join_cons, <- !app_comm_cons. eauto. }
    destruct Hhead as (s0 & Hs0).
    destruct (member_texts gap indent ((k', v') :: ms')) as [|m0 mt] eqn:Hmt.
    { discriminate Hs0. }
    rewrite <- app_comm_cons.
    rewrite skip_ws_stop by reflexivity. cbn [Z.eqb Pos.eqb].
    rewrite <- app_assoc, skip_ws_app by assumption.
    rewrite Hs0 at 1. rewrite <- app_comm_cons.
    rewrite skip_ws_stop by reflexivity.
    rewrite app_comm_cons, <- Hs0.
    rewrite IH by (congruence || assumption || lia).
    now rewrite <- app_assoc.
Qed.

Lemma value_start_not_close c :
  value_start c = true -> (c =? 93) = false /\ (c =? 125) = false.
Proof. unfold value_start. lia. Qed.

Lemma reads_back_head gap indent v :
  reads_back gap indent v ->
  exists c t', element_text gap indent v = c :: t' /\ value_start c = true.
Proof.
  intros (t & Ht & Hhead & _). unfold element_text. now rewrite Ht.
Qed.

(** Every value of [json_ok] is parsed back from its text, at any
    indentation and whatever follows the text. *)
Lemma serialize_reads_back v :
  json_ok v ->
  forall gap indent, ws_only gap -> ws_only indent -> reads_back gap indent v.
Proof.
  induction v as [| |b|d|s|vs IH|ms IH|] using value_ind;
    intros Hok gap indent Hgap Hindent; inversion Hok; subst.
  - exists lit_null. split; [reflexivity|]. split; [now exists 110, [117; 108; 108]|].
    intros [|f] rest Hf; [cbn in Hf; lia|]. reflexivity.
  - destruct b.
    + exists lit_true. split; [reflexivity|]. split; [now exists 116, [114; 117; 101]|].
      intros [|f] rest Hf; [cbn in Hf; lia|]. reflexivity.
    + exists lit_false. split; [reflexivity|].
      split; [now exists 102, [97; 108; 115; 101]|].
      intros [|f] rest Hf; [cbn in Hf; lia|]. reflexivity.
  - exists (quote s). split; [reflexivity|].
    split; [now exists 34, (quote_chars s ++ [34])|].
    intros [|f] rest Hf; [cbn in Hf; lia|].
    unfold quote. rewrite <- app_comm_cons. cbn [parse_value Z.eqb Pos.eqb].
    now rewrite parse_quote_tail.
  - (* arrays *)
    assert (Hall : Forall (reads_back gap (indent ++ gap)) vs).
    { rewrite Forall_forall in *. intros x Hx.
      apply IH; auto using ws_only_app. }
    exists (wrap 91 93 gap indent (indent ++ gap)
              (map (element_text gap (indent ++ gap)) vs)).
    split; [apply serialize_array|].
    split; [destruct vs; [now exists 91, [93]|]; unfold wrap; cbn [map];
            destruct gap; eauto|].
    intros [|f] rest Hf; [cbn in Hf; lia|].
    destruct vs as [|v vs]; [reflexivity|].
    destruct (wrap_shape 91 93 gap indent (indent ++ gap)
                (element_text gap (indent ++ gap) v)
                (map (element_text gap (indent ++ gap)) vs))
      as (w1 & w2 & Hw1 & Hw2 & Hwrap); auto using ws_only_app.
    cbn [map]. rewrite Hwrap. rewrite <- app_comm_cons.
    cbn [parse_value Z.eqb Pos.eqb].
    rewrite <- !app_assoc, skip_ws_app by assumption.
    change (element_text gap (indent ++ gap) v :: map (element_text gap (indent ++ gap)) vs)
      with (map (element_text gap (indent ++ gap)) (v :: vs)).
    cbn [app].
    remember (join (44 :: w1) (map (element_text gap (indent ++ gap)) (v :: vs))
                ++ w2 ++ 93 :: rest) as J eqn:HJ.
    assert (HJhead : exists c J', J = c :: J' /\ value_start c = true).
    { apply Forall_cons in Hall as [Hv _].
      destruct (reads_back_head _ _ _ Hv) as (c & t' & Hc & Hstart).
      exists c. subst J. cbn [map]. rewrite join_cons, Hc, <- !app_comm_cons. eauto. }
    destruct HJhead as (c & J' & HJ' & Hstart).
    rewrite HJ' at 1. rewrite skip_ws_stop by now apply value_start_not_ws.
    rewrite (proj1 (value_start_not_close c Hstart)).
    rewrite <- HJ', HJ.
    cbn [need] in Hf. fold (need_elements (v :: vs)) in Hf.
    rewrite parse_elements_texts; auto; (congruence || lia).
  - (* objects *)
    assert (Hall : Forall (fun m => wf_string (fst m) /\ reads_back gap (indent ++ gap) (snd m)) ms).
    { rewrite Forall_forall in *. intros x Hx. split; [now apply H1|].
      apply IH; auto using ws_only_app. now apply H1. }
    exists (wrap 123 125 gap indent (indent ++ gap)
              (member_texts gap (indent ++ gap) ms)).
    split; [apply serialize_object|].
    split; [destruct (member_texts gap (indent ++ gap) ms); [now exists 123, [125]|];
            unfold wrap; destruct gap; eauto|].
    intros [|f] rest Hf; [cbn in Hf; lia|].
    destruct ms as [|[k v] ms]; [reflexivity|].
    assert (Hhead : exists s0 mt,
               member_texts gap (indent ++ gap) ((k, v) :: ms) = (34 :: s0) :: mt).
    { apply Forall_cons in Hall as [[_ Hv] _]. destruct Hv as (t' & Ht' & _).
      cbn [member_texts snd] in *. rewrite Ht'. unfold quote.
      rewrite <- app_comm_cons. eauto. }
    destruct Hhead as (s0 & mt & Hmt).
    destruct (wrap_shape 123 125 gap indent (indent ++ gap) (34 :: s0) mt)
      as (w1 & w2 & Hw1 & Hw2 & Hwrap); auto using ws_only_app.
    rewrite Hmt, Hwrap, <- Hmt. rewrite <- app_comm_cons.
    cbn [parse_value Z.eqb Pos.eqb].
    rewrite <- !app_assoc, skip_ws_app by assumption.
    cbn [app].
    remember (join (44 :: w1) (member_texts gap (indent ++ gap) ((k, v) :: ms))
                ++ w2 ++ 125 :: rest) as J eqn:HJ.
    assert (HJhead : exists J', J = 34 :: J').
    { subst J. rewrite Hmt, join_cons, <- !app_comm_cons. eauto. }
    destruct HJhead as (J' & HJ').
    rewrite HJ' at 1. rewrite skip_ws_stop by reflexivity.
    cbn [Z.eqb Pos.eqb]. rewrite <- HJ', HJ.
    cbn [need] in Hf. fold (need_members ((k, v) :: ms)) in Hf.
    rewrite parse_members_texts; auto; (congruence || lia).
Qed.

(** ** The budget of [JSON_parse] is never exhausted *)

Lemma parse_value_S f s :
  parse_value (S f) s
  = match s with
    | [] => PErr
    | c :: s1 =>
      if c =? 123 then
        match skip_ws s1 with
        | [] => PErr
        | d :: s2 =>
          if d =? 125 then POk (JObject []) s2 else parse_members f (d :: s2) []
        end
      else if c =? 91 then
        match skip_ws s1 with
        | [] => PErr
        | d :: s2 =>
          if d =? 93 then POk (JArray []) s2 else parse_elements f (d :: s2) []
        end
      else if c =? 34 then
        match parse_string_chars s1 with
        | Some (t, rest) => POk (JString t) rest
        | None => PErr
        end
      else if c =? 110 then parse_literal lit_null JNull s
      else if c =? 116 then parse_literal lit_true (JBool true) s
      else if c =? 102 then parse_literal lit_false (JBool false) s
      else
        match parse_number s with
        | Some (d, rest) => POk (JNumber d) rest
        | None => PErr
        end
    end.
Proof. reflexivity. Qed.

Lemma parse_elements_S f s acc :
  parse_elements (S f) s acc
  = match parse_value f s with
    | POk v rest =>
      match skip_ws rest with
      | [] => PErr
      | c :: rest' =>
        if c =? 44 then parse_elements f (skip_ws rest') (acc ++ [v])
        else if c =? 93 then POk (JArray (acc ++ [v])) rest'
        else PErr
      end
    | PErr => PErr
    | PFuel => PFuel
    end.
Proof. reflexivity. Qed.

Lemma parse_members_S f s acc :
  parse_members (S f) s acc
  = match s with
    | [] => PErr
    | c :: s1 =>
      if c =? 34 then
        match parse_string_chars s1 with
        | None => PErr
        | Some (k, s2) =>
          match skip_ws s2 with
          | [] => PErr
          | d :: s3 =>
            if d =? 58 then
              match parse_value f (skip_ws s3) with
              | POk v rest =>
                match skip_ws rest with
                | [] => PErr
                | e :: rest' =>
                  if e =? 44 then parse_members f (skip_ws rest') (obj_set acc k v)
                  else if e =? 125 then POk (JObject (obj_set acc k v)) rest'
                  else PErr
                end
              | PErr => PErr
              | PFuel => PFuel
              end
            else PErr
          end
        end
      else PErr
    end.
Proof. reflexivity. Qed.

(** One more unit of budget does not change a result. *)
Lemma parse_fuel_step f :
  (forall s, parse_value f s <> PFuel -> parse_value (S f) s = parse_value f s)
  /\ (forall s acc, parse_elements f s acc <> PFuel ->
                    parse_elements (S f) s acc = parse_elements f s acc)
  /\ (forall s acc, parse_members f s acc <> PFuel ->
                    parse_members (S f) s acc = parse_members f s acc).
Proof.
  induction f as [|f (IHv & IHe & IHm)].
  - repeat split; intros; exfalso; auto.
  - split; [|split].
    + intros s H. rewrite (parse_value_S (S f)). rewrite (parse_value_S f) in *.
      destruct s as [|c s1]; [reflexivity|].
      destruct (c =? 123).
      { destruct (skip_ws s1) as [|d s2]; [reflexivity|].
        destruct (d =? 125); [reflexivity|]. now apply IHm. }
      destruct (c =? 91); [|reflexivity].
      destruct (skip_ws s1) as [|d s2]; [reflexivity|].
      destruct (d =? 93); [reflexivity|]. now apply IHe.
    + intros s acc H. rewrite (parse_elements_S (S f)). rewrite (parse_elements_S f) in *.
      destruct (parse_value f s) as [v rest| |] eqn:Ev; [| |congruence];
        rewrite IHv, Ev by congruence; [|reflexivity].
      destruct (skip_ws rest) as [|c rest']; [reflexivity|].
      destruct (c =? 44); [|reflexivity]. now apply IHe.
    + intros s acc H. rewrite (parse_members_S (S f)). rewrite (parse_members_S f) in *.
      destruct s as [|c s1]; [reflexivity|].
      destruct (c =? 34); [|reflexivity].
      destruct (parse_string_chars s1) as [[k s2]|]; [|reflexivity].
      destruct (skip_ws s2) as [|d s3]; [reflexivity|].
      destruct (d =? 58); [|reflexivity].
      destruct (parse_value f (skip_ws s3)) as [v rest| |] eqn:Ev; [| |congruence];
        rewrite IHv, Ev by congruence; [|reflexivity].
      destruct (skip_ws rest) as [|e rest']; [reflexivity|].
      destruct (e =? 44); [|reflexivity]. now apply IHm.
Qed.

(** A result obtained within some budget is the result for any larger one. *)
Lemma parse_value_fuel_mono f f' s :
  (f <= f')%nat -> parse_value f s <> PFuel -> parse_value f' s = parse_value f s.
Proof.
  induction 1 as [|f' _ IH]; intros H; [reflexivity|].
  rewrite <- (IH H). apply parse_fuel_step. rewrite (IH H). exact H.
Qed.

Lemma skip_ws_length s : (length (skip_ws s) <= length s)%nat.
Proof.
  induction s as [|c s IH]; [reflexivity|].
  cbn [skip_ws]. destruct (is_ws c); cbn [length]; lia.
Qed.

Lemma parse_string_chars_length s t rest :
  parse_string_chars s = Some (t, rest) -> (length rest < length s)%nat.
Proof.
  remember (length s) as n eqn:Hn.
  assert (Hle : (length s <= n)%nat) by lia. clear Hn.
  revert s t rest Hle.
  induction n as [|n IH]; intros [|c s1] t rest Hle H; cbn [length] in *;
    try discriminate; try lia.
  cbn [parse_string_chars] in H.
  destruct (c =? 34); [injection H as _ <-; lia|].
  destruct (c =? 92).
  - destruct s1 as [|e s2]; [discriminate|].
    destruct (e =? 117).
    + destruct s2 as [|h1 [|h2 [|h3 [|h4 s3]]]]; try discriminate.
      destruct (hex_value h1), (hex_value h2), (hex_value h3), (hex_value h4);
        try discriminate.
      destruct (parse_string_chars s3) as [[t' rest']|] eqn:E; [|discriminate].
      injection H as _ <-. apply IH in E; cbn [length] in *; lia.
    + destruct (unescape e); [|discriminate].
      destruct (parse_string_chars s2) as [[t' rest']|] eqn:E; [|discriminate].
      injection H as _ <-. apply IH in E; cbn [length] in *; lia.
  - destruct (c <? 32); [discriminate|].
    destruct (parse_string_chars s1) as [[t' rest']|] eqn:E; [|discriminate].
    injection H as _ <-. apply IH in E; lia.
Qed.

Lemma span_digits_length s ds rest :
  span_digits s = (ds, rest) -> (length rest <= length s)%nat.
Proof.
  revert ds rest. induction s as [|c s IH]; intros ds rest H; cbn [span_digits] in H.
  - injection H as _ <-. reflexivity.
  - destruct (is_digit c).
    + destruct (span_digits s) as [ds' rest'] eqn:E. injection H as _ <-.
      specialize (IH _ _ eq_refl). cbn [length]. lia.
    + injection H as _ <-. reflexivity.
Qed.

Lemma parse_fraction_length s fs rest :
  parse_fraction s = Some (fs, rest) -> (length rest <= length s)%nat.
Proof.
  unfold parse_fraction. intros H.
  destruct s as [|c s1]; [injection H as _ <-; reflexivity|].
  destruct (c =? 46); [|injection H as _ <-; reflexivity].
  destruct (span_digits s1) as [ds r] eqn:E. apply span_digits_length in E.
  destruct ds; [discriminate|]. injection H as _ <-. cbn [length]. lia.
Qed.

Lemma parse_exponent_length s e rest :
  parse_exponent s = Some (e, rest) -> (length rest <= length s)%nat.
Proof.
  unfold parse_exponent. intros H.
  destruct s as [|c s1]; [injection H as _ <-; reflexivity|].
  destruct ((c =? 101) || (c =? 69)); [|injection H as _ <-; reflexivity].
  assert (Hsign : forall (neg : bool) (s2 : jsstring),
             match span_digits s2 with
             | ([], _) => None
             | (es, r) => Some (if neg then - digits_value es else digits_value es, r)
             end = Some (e, rest) -> (length rest <= length s2)%nat).
  { intros neg s2 H2. destruct (span_digits s2) as [ds r] eqn:E.
    apply span_digits_length in E. destruct ds; [discriminate|].
    injection H2 as _ <-. exact E. }
  destruct s1 as [|d s1']; [apply (Hsign false []) in H; cbn [length] in *; lia|].
  destruct (d =? 45); [apply (Hsign true s1') in H; cbn [length]; lia|].
  destruct (d =? 43);
    [apply (Hsign false s1') in H|apply (Hsign false (d :: s1')) in H];
    cbn [length] in *; lia.
Qed.

Lemma parse_number_length s d rest :
  parse_number s = Some (d, rest) -> (length rest < length s)%nat.
Proof.
  unfold parse_number. intros H.
  assert (Hbody : forall (neg : bool) (s1 : jsstring),
             match s1 with
             | [] => None
             | c :: s2 =>
               if is_digit c then
                 let '(ids, s3) := if c =? 48 then ([c], s2) else
                                     let '(ds, r) := span_digits s2 in (c :: ds, r) in
                 match parse_fraction s3 with
                 | Some (fs, s4) =>
                   match parse_exponent s4 with
                   | Some (e, rest) =>
                     Some ({| d_neg := neg; d_mant := digits_value (ids ++ fs);
                              d_exp := e - Z.of_nat (length fs) |}, rest)
                   | None => None
                   end
                 | None => None
                 end
               else None
             end = Some (d, rest) -> (length rest < length s1)%nat).
  { intros neg [|c s2] H1; [discriminate|].
    destruct (is_digit c); [|discriminate].
    assert (Hs3 : exists ids s3,
               (if c =? 48 then ([c], s2) else
                  let '(ds, r) := span_digits s2 in (c :: ds, r)) = (ids, s3)
               /\ (length s3 <= length s2)%nat).
    { destruct (c =? 48); [eauto|].
      destruct (span_digits s2) as [ds r] eqn:E. apply span_digits_length in E. eauto. }
    destruct Hs3 as (ids & s3 & Heq & Hs3). rewrite Heq in H1.
    destruct (parse_fraction s3) as [[fs s4]|] eqn:Ef; [|discriminate].
    destruct (parse_exponent s4) as [[e r]|] eqn:Ee; [|discriminate].
    injection H1 as _ <-.
    apply parse_fraction_length in Ef. apply parse_exponent_length in Ee.
    cbn [length]. lia. }
  destruct s as [|c s']; [apply (Hbody false []) in H; cbn [length] in *; lia|].
  destruct (c =? 45);
    [apply (Hbody true s') in H|apply (Hbody false (c :: s')) in H];
    cbn [length] in *; lia.
Qed.

Lemma strip_prefix_length p s rest :
  strip_prefix p s = Some rest -> length s = (length p + length rest)%nat.
Proof.
  revert s. induction p as [|a p IH]; intros s H; cbn [strip_prefix] in H.
  - now injection H as <-.
  - destruct s as [|b s]; [discriminate|].
    destruct (a =? b); [|discriminate]. cbn [length]. now rewrite (IH _ H).
Qed.

Lemma parse_literal_within lit v s :
  lit <> [] -> within s (parse_literal lit v s).
Proof.
  intros Hlit. unfold parse_literal.
  destruct (strip_prefix lit s) as [rest|] eqn:E; [|exact I].
  apply strip_prefix_length in E. cbn [within]. destruct lit; [congruence|].
  cbn [length] in E. lia.
Qed.

Lemma within_mono s s' r :
  within s' r -> (length s' <= length s)%nat -> within s r.
Proof. destruct r; cbn [within]; [lia|trivial|trivial]. Qed.

(** With a budget above twice the length of the input, the parser stops on
    its own, and a result leaves strictly less input. *)
Lemma parse_within f :
  (forall s, (2 * length s < f)%nat -> within s (parse_value f s))
  /\ (forall s acc, (2 * length s + 2 <= f)%nat -> within s (parse_elements f s acc))
  /\ (forall s acc, (2 * length s + 2 <= f)%nat -> within s (parse_members f s acc)).
Proof.
  induction f as [|f (IHv & IHe & IHm)].
  - repeat split; intros; lia.
  - split; [|split].
    + intros s Hf. rewrite parse_value_S.
      destruct s as [|c s1]; [exact I|]. cbn [length] in Hf.
      pose proof (skip_ws_length s1) as Hws.
      destruct (c =? 123).
      { destruct (skip_ws s1) as [|d s2]; [exact I|]. cbn [length] in Hws.
        destruct (d =? 125); [cbn [within length]; lia|].
        apply (within_mono _ (d :: s2)); [apply IHm|]; cbn [length]; lia. }
      destruct (c =? 91).
      { destruct (skip_ws s1) as [|d s2]; [exact I|]. cbn [length] in Hws.
        destruct (d =? 93); [cbn [within length]; lia|].
        apply (within_mono _ (d :: s2)); [apply IHe|]; cbn [length]; lia. }
      destruct (c =? 34).
      { destruct (parse_string_chars s1) as [[t rest]|] eqn:E; [|exact I].
        apply parse_string_chars_length in E. cbn [within length]. lia. }
      destruct (c =? 110); [now apply parse_literal_within|].
      destruct (c =? 116); [now apply parse_literal_within|].
      destruct (c =? 102); [now apply parse_literal_within|].
      destruct (parse_number (c :: s1)) as [[d rest]|] eqn:E; [|exact I].
      apply parse_number_length in E. exact E.
    + intros s acc Hf. rewrite parse_elements_S.
      pose proof (IHv s ltac:(lia)) as Hv.
      destruct (parse_value f s) as [v rest| |]; [|exact I|exact Hv].
      cbn [within] in Hv. pose proof (skip_ws_length rest) as Hws.
      destruct (skip_ws rest) as [|c rest']; [exact I|]. cbn [length] in Hws.
      destruct (c =? 44).
      { pose proof (skip_ws_length rest').
        apply (within_mono _ (skip_ws rest')); [apply IHe|]; lia. }
      destruct (c =? 93); [cbn [within]; lia|exact I].
    + intros s acc Hf. rewrite parse_members_S.
      destruct s as [|c s1]; [exact I|]. cbn [length] in Hf.
      destruct (c =? 34); [|exact I].
      destruct (parse_string_chars s1) as [[k s2]|] eqn:Ek; [|exact I].
      apply parse_string_chars_length in Ek.
      pose proof (skip_ws_length s2) as Hws2.
      destruct (skip_ws s2) as [|d s3]; [exact I|]. cbn [length] in Hws2.
      destruct (d =? 58); [|exact I].
      pose proof (skip_ws_length s3) as Hws3.
      pose proof (IHv (skip_ws s3) ltac:(lia)) as Hv.
      destruct (parse_value f (skip_ws s3)) as [v rest| |]; [|exact I|exact Hv].
      cbn [within] in Hv. pose proof (skip_ws_length rest) as Hws.
      destruct (skip_ws rest) as [|e rest']; [exact I|]. cbn [length] in Hws.
      destruct (e =? 44).
      { pose proof (skip_ws_length rest').
        apply (within_mono _ (skip_ws rest')); [apply IHm|]; cbn [length]; lia. }
      destruct (e =? 125); [cbn [within length]; lia|exact I].
Qed.

(** [JSON.parse] returns or throws a SyntaxError on every text. *)
Lemma JSON_parse_total text :
  (exists v, JSON_parse text = Normal v) \/ JSON_parse text = Throw SyntaxError.
Proof.
  unfold JSON_parse.
  pose proof (proj1 (parse_within (S (2 * length text))) (skip_ws text)) as H.
  pose proof (skip_ws_length text).
  destruct (parse_value (S (2 * length text)) (skip_ws text)) as [v rest| |].
  - destruct (skip_ws rest); eauto.
  - now right.
  - exfalso. apply H. lia.
Qed.

(** The text of a value that reads back parses to that value. *)
Lemma JSON_parse_text gap indent v t :
  reads_back gap indent v -> serialize gap indent v = Some t ->
  JSON_parse t = Normal v.
Proof.
  intros (t' & Ht' & (c & t0 & Hc & Hstart) & Hparse) Ht.
  rewrite Ht in Ht'. injection Ht' as <-.
  unfold JSON_parse.
  assert (Hskip : skip_ws t = t).
  { rewrite Hc. now apply skip_ws_stop, value_start_not_ws. }
  rewrite Hskip.
  pose proof (proj1 (parse_within (S (2 * length t))) t ltac:(lia)) as Hw.
  specialize (Hparse (Nat.max (S (2 * length t)) (need v)) [] ltac:(lia)).
  rewrite app_nil_r in Hparse.
  rewrite (parse_value_fuel_mono (S (2 * length t)) _ t) in Hparse;
    [|lia|intros E; now rewrite E in Hw].
  now rewrite Hparse.
Qed.

Lemma ws_only_repeat n : ws_only (repeat 32 n).
Proof. induction n; constructor; auto. Qed.

(** [JSON.parse(JSON.stringify(v, null, space)) = v] on [json_ok]. *)
Lemma JSON_parse_stringify v space :
  json_ok v ->
  exists t, JSON_stringify v space = Some t /\ JSON_parse t = Normal v.
Proof.
  intros Hok. unfold JSON_stringify.
  pose proof (serialize_reads_back v Hok (repeat 32 (Nat.min space 10)) []
                (ws_only_repeat _) (Forall_nil_2 _)) as Hrb.
  pose proof Hrb as (t & Ht & _). exists t. split; [exact Ht|].
  eapply JSON_parse_text; eassumption.
Qed.

(** ** The text [JSON.stringify] writes is well-formed UTF-16 *)

Lemma ws_only_utf16 s : ws_only s -> utf16_ok s.
Proof.
  intros H. apply utf16_ok_ascii. eapply Forall_impl; [exact H|].
  intros c Hc. cbv beta in Hc. unfold is_ws in Hc. lia.
Qed.

Lemma join_utf16 sep parts :
  utf16_ok sep -> Forall utf16_ok parts -> utf16_ok (join sep parts).
Proof.
  intros Hsep. induction 1 as [|p ps Hp _ IH]; [constructor|].
  rewrite join_cons. apply utf16_ok_app; [exact Hp|].
  destruct ps; [constructor|]. now apply utf16_ok_app.
Qed.

Lemma wrap_utf16 o c gap stepback indent partial :
  0 <= o < 128 -> 0 <= c < 128 ->
  ws_only stepback -> ws_only indent ->
  Forall utf16_ok partial ->
  utf16_ok (wrap o c gap stepback indent partial).
Proof.
  intros Ho Hc Hs Hi Hall.
  assert (Hone : forall x, 0 <= x < 128 -> utf16_ok [x]).
  { intros x Hx. apply utf16_ok_ascii. now repeat constructor. }
  destruct partial as [|p ps].
  - apply utf16_ok_ascii. now repeat constructor.
  - destruct (wrap_shape o c gap stepback indent p ps Hi Hs)
      as (w1 & w2 & Hw1 & Hw2 & ->).
    change (o :: w1 ++ join (44 :: w1) (p :: ps) ++ w2 ++ [c])
      with ([o] ++ w1 ++ join (44 :: w1) (p :: ps) ++ w2 ++ [c]).
    repeat apply utf16_ok_app; auto using ws_only_utf16.
    apply join_utf16; [|exact Hall].
    change (44 :: w1) with ([44] ++ w1).
    apply utf16_ok_app; [apply Hone; lia|now apply ws_only_utf16].
Qed.

Lemma json_ok_serializes v gap indent :
  json_ok v -> ws_only gap -> ws_only indent ->
  exists t, serialize gap indent v = Some t.
Proof.
  intros Hok Hg Hi.
  destruct (serialize_reads_back v Hok gap indent Hg Hi) as (t & Ht & _). eauto.
Qed.

Lemma colon_utf16 gap : utf16_ok (colon gap).
Proof.
  apply utf16_ok_ascii. unfold colon. destruct gap; repeat constructor; lia.
Qed.

Lemma serialize_utf16 v :
  json_ok v ->
  forall gap indent t,
    ws_only gap -> ws_only indent -> serialize gap indent v = Some t -> utf16_ok t.
Proof.
  induction v as [| |b|d|s|vs IH|ms IH|] using value_ind;
    intros Hok gap indent t Hgap Hindent Ht; inversion Hok; subst.
  - injection Ht as <-. apply utf16_ok_ascii. repeat constructor; lia.
  - injection Ht as <-. apply utf16_ok_ascii. destruct b; repeat constructor; lia.
  - injection Ht as <-. now apply quote_utf16.
  - rewrite serialize_array in Ht. injection Ht as <-.
    apply wrap_utf16; auto using ws_only_app; try lia.
    rewrite Forall_forall in IH. rewrite Forall_forall in H0.
    apply Forall_forall. intros p Hp.
    apply list_elem_of_fmap in Hp as (x & -> & Hx).
    unfold element_text.
    assert (Hgi : ws_only (indent ++ gap)) by now apply ws_only_app.
    destruct (json_ok_serializes x gap (indent ++ gap) (H0 x Hx) Hgap Hgi)
      as (tx & Htx).
    rewrite Htx. exact (IH x Hx (H0 x Hx) gap (indent ++ gap) tx Hgap Hgi Htx).
  - rewrite serialize_object in Ht. injection Ht as <-.
    apply wrap_utf16; auto using ws_only_app; try lia.
    clear Hok H0. induction ms as [|[k x] ms IHms]; [constructor|].
    apply Forall_cons in IH as [IHx IH]. apply Forall_cons in H1 as [[Hk Hx] H1].
    cbn [fst snd] in *. cbn [member_texts].
    assert (Hgi : ws_only (indent ++ gap)) by now apply ws_only_app.
    destruct (json_ok_serializes x gap (indent ++ gap) Hx Hgap Hgi) as (tx & Htx).
    rewrite Htx. constructor; [|now apply IHms].
    apply utf16_ok_app; [now apply quote_utf16|].
    apply utf16_ok_app; [apply colon_utf16|].
    exact (IHx Hx gap (indent ++ gap) tx Hgap Hgi Htx).
Qed.

(** So the bytes of a stringified value decode to the text again. *)
Lemma utf8_stringify v space t :
  json_ok v -> JSON_stringify v space = Some t ->
  utf8_decode (utf8_encode t) = t /\ wf_buffer (utf8_encode t).
Proof.
  intros Hok Ht.
  assert (Hu : utf16_ok t).
  { eapply serialize_utf16; [exact Hok| | |exact Ht];
      [apply ws_only_repeat|constructor]. }
  split; [now apply utf8_decode_encode|].
  now apply utf8_encode_wf, utf16_ok_wf.
Qed.

(** ** The token codec *)

Lemma split_no_sep sep s : Forall (fun c => c <> sep) s -> split sep s = [s].
Proof.
  induction 1 as [|c s Hc _ IH]; [reflexivity|].
  cbn [split]. rewrite (proj2 (Z.eqb_neq c sep) Hc). now rewrite IH.
Qed.

Lemma split_app_sep sep a b :
  Forall (fun c => c <> sep) a -> split sep (a ++ sep :: b) = a :: split sep b.
Proof.
  induction 1 as [|c s Hc _ IH]; cbn [app split].
  - now rewrite Z.eqb_refl.
  - rewrite (proj2 (Z.eqb_neq c sep) Hc). now rewrite IH.
Qed.

(** What [verifyToken] does with a token of at least two segments: it reads
    the second one and nothing else. *)
Lemma verifyToken_segments h seg tail v :
  Forall (fun c => c <> 46) h -> Forall (fun c => c <> 46) seg ->
  JSON_parse (utf8_decode (base64_decode seg)) = Normal v ->
  verifyToken (JString (h ++ 46 :: seg ++ 46 :: tail)) = Normal v.
Proof.
  intros Hh Hseg Hv. unfold verifyToken, String_split. cbn [bind].
  rewrite split_app_sep by assumption. rewrite split_app_sep by assumption.
  cbn [length nth Nat.ltb Nat.leb].
  rewrite Hv. reflexivity.
Qed.

Lemma encode_segment_decodes v seg :
  json_ok v -> encode_segment v = Normal seg ->
  Forall (fun c => c <> 46) seg
  /\ JSON_parse (utf8_decode (base64_decode seg)) = Normal v.
Proof.
  intros Hok Hseg. unfold encode_segment in Hseg.
  destruct (JSON_parse_stringify v 0 Hok) as (t & Ht & Hparse).
  rewrite Ht in Hseg. cbn [Buffer_from bind] in Hseg. injection Hseg as <-.
  destruct (utf8_stringify v 0 t Hok Ht) as [Hdec Hwf].
  split; [now apply base64_encode_no_dot|].
  rewrite base64_decode_encode by assumption. now rewrite Hdec.
Qed.

Lemma encode_header : encode_segment jwt_header = Normal header_segment.
Proof. vm_compute. reflexivity. Qed.

Lemma header_no_dot : Forall (fun c => c <> 46) header_segment.
Proof. unfold header_segment. repeat (constructor; [lia|]). constructor. Qed.

Lemma createToken_segments payload :
  createToken payload
  = let* seg := encode_segment payload in
    Normal (header_segment ++ 46 :: seg ++ [46]).
Proof.
  pose proof encode_header as Hh. unfold createToken, encode_segment in *.
  destruct (Buffer_from (JSON_stringify jwt_header 0)) as [hb| |];
    cbn [bind] in Hh; try discriminate.
  injection Hh as Hh. cbn [bind]. cbv zeta. rewrite Hh.
  destruct (Buffer_from (JSON_stringify payload 0)); reflexivity.
Qed.

Lemma json_ok_segment v :
  json_ok v -> exists seg, encode_segment v = Normal seg.
Proof.
  intros Hok. destruct (JSON_parse_stringify v 0 Hok) as (t & Ht & _).
  unfold encode_segment. rewrite Ht. cbn. eauto.
Qed.

(** C2.  Round trip: for every claim without loss in JSON (in particular
    every [{ sub: email }]), [createToken] returns a token and [verifyToken]
    of that token returns the claim. *)
Theorem verifyToken_createToken c :
  json_ok c ->
  exists token, createToken c = Normal token /\ verifyToken (JString token) = Normal c.
Proof.
  intros Hok. destruct (json_ok_segment c Hok) as (seg & Hseg).
  destruct (encode_segment_decodes c seg Hok Hseg) as [Hdot Hparse].
  exists (header_segment ++ 46 :: seg ++ [46]). split.
  - rewrite createToken_segments, Hseg. reflexivity.
  - apply verifyToken_segments; [exact header_no_dot|exact Hdot|exact Hparse].
Qed.

Lemma str_wf s : wf_string (str s).
Proof.
  unfold wf_string, wf_unit, str.
  induction s as [|a s IH]; cbn [list_ascii_of_string map]; constructor; [|exact IH].
  pose proof (N_ascii_bounded a). lia.
Qed.

Lemma json_ok_claim email : wf_string email -> json_ok (claim email).
Proof.
  intros He. unfold claim. constructor.
  - cbn [map fst]. apply NoDup_singleton.
  - apply List.Forall_cons; [|apply List.Forall_nil].
    split; [apply str_wf|constructor; exact He].
Qed.

Lemma verifyToken_createToken_witness :
  exists token,
    createToken (claim (str "a@x.com")) = Normal token
    /\ verifyToken (JString token) = Normal (claim (str "a@x.com")).
Proof.
  apply (verifyToken_createToken (claim (str "a@x.com"))).
  apply json_ok_claim, str_wf.
Defined.

(** C1, as the program behaves.  Replacing the payload segment of an issued
    token by the encoding of another claim yields a token that [verifyToken]
    accepts, and the result is the other claim. *)
Theorem verifyToken_replaced_payload c c' token seg :
  json_ok c -> json_ok c' ->
  createToken c = Normal token -> encode_segment c' = Normal seg ->
  verifyToken (JString (replace_payload token seg)) = Normal c'.
Proof.
  intros Hc Hc' Htoken Hseg.
  destruct (json_ok_segment c Hc) as (seg0 & Hseg0).
  destruct (encode_segment_decodes c seg0 Hc Hseg0) as [Hdot0 _].
  destruct (encode_segment_decodes c' seg Hc' Hseg) as [Hdot Hparse].
  rewrite createToken_segments, Hseg0 in Htoken.
  pose proof header_no_dot as Hh.
  set (hs := header_segment) in *. clearbody hs.
  cbn [bind] in Htoken. injection Htoken as <-.
  unfold replace_payload.
  rewrite split_app_sep by exact Hh.
  rewrite split_app_sep by exact Hdot0.
  cbn [split join]. rewrite <- app_comm_cons. cbn [app].
  apply verifyToken_segments; [exact Hh|exact Hdot|exact Hparse].
Qed.

Lemma verifyToken_replaced_payload_witness :
  verifyToken
    (JString (replace_payload
                (str "eyJhbGciOiJub25lIiwidHlwIjoiSldUIn0=.eyJzdWIiOiJhQHguY29tIn0=.")
                (str "eyJzdWIiOiJiQHguY29tIn0=")))
  = Normal (claim (str "b@x.com")).
Proof.
  apply (verifyToken_replaced_payload (claim (str "a@x.com")) (claim (str "b@x.com"))).
  - apply json_ok_claim, str_wf.
  - apply json_ok_claim, str_wf.
  - vm_compute. reflexivity.
  - vm_compute. reflexivity.
Defined.

(** C1, as stated, fails: the token issued for [a@x.com], with its payload
    segment replaced by the Base64 text of the claim of [b@x.com], is
    accepted, and [verifyToken] returns the altered claim, not [null]. *)
Lemma tampered_token_accepted :
  createToken (claim (str "a@x.com"))
  = Normal (str "eyJhbGciOiJub25lIiwidHlwIjoiSldUIn0=.eyJzdWIiOiJhQHguY29tIn0=.")
  /\ verifyToken
       (JString (str "eyJhbGciOiJub25lIiwidHlwIjoiSldUIn0=.eyJzdWIiOiJiQHguY29tIn0=."))
     = Normal (claim (str "b@x.com"))
  /\ Normal (claim (str "b@x.com")) <> Normal JNull.
Proof. repeat split; [vm_compute; reflexivity..|discriminate]. Qed.

(** C4.  [verifyToken] returns on every argument, a string or not: it
    neither throws nor runs on.  What it returns is [null] when the argument
    is not a string (the exception of [token.split] is caught), when the
    token has fewer than two segments, and when [JSON.parse] throws on the
    text decoded from the second segment (that exception is caught too);
    otherwise it is the value [JSON.parse] returns for that text. *)
Theorem verifyToken_total (token : value) :
  exists v,
    verifyToken token = Normal v
    /\ match token with
       | JString s =>
         if (length (split 46 s) <? 2)%nat then v = JNull
         else match JSON_parse (payload_text s) with
              | Normal decoded => v = decoded
              | Throw _ => v = JNull
              | Fuel => False
              end
       | _ => v = JNull
       end.
Proof.
  unfold verifyToken, payload_text.
  destruct token; try (exists JNull; split; reflexivity).
  cbn [String_split bind].
  destruct (length (split 46 s) <? 2)%nat; [exists JNull; split; reflexivity|].
  destruct (JSON_parse_total (utf8_decode (base64_decode (nth 1 (split 46 s) []))))
    as [[v ->]| ->]; cbn [try_catch].
  - exists v. split; reflexivity.
  - exists JNull. split; reflexivity.
Qed.

(** C3, as the program behaves.  [verifyToken] returns [null] exactly when
    the token has fewer than two segments, or the text decoded from the
    second segment is not JSON, or it is the JSON text [null]; any other
    result is the parsed value of that text, whatever its shape. *)
Theorem verifyToken_null_iff token :
  (verifyToken (JString token) = Normal JNull
   <-> (length (split 46 token) < 2)%nat
       \/ JSON_parse (payload_text token) = Throw SyntaxError
       \/ JSON_parse (payload_text token) = Normal JNull)
  /\ forall v, verifyToken (JString token) = Normal v -> v <> JNull ->
               (2 <= length (split 46 token))%nat
               /\ JSON_parse (payload_text token) = Normal v.
Proof.
  unfold verifyToken, payload_text. cbn [String_split bind].
  destruct (Nat.ltb_spec (length (split 46 token)) 2) as [Hlt|Hge].
  - split; [split; auto|]. intros v Hv Hne. cbn in Hv. congruence.
  - destruct (JSON_parse_total (utf8_decode (base64_decode (nth 1 (split 46 token) []))))
      as [[v Hv]|Hv]; rewrite Hv; cbn [try_catch].
    + split.
      * split; [intros H; right; right; congruence|].
        intros [H|[H|H]]; [lia|discriminate|congruence].
      * intros v' Hv' Hne. split; [exact Hge|congruence].
    + split.
      * split; [auto|reflexivity].
      * intros v' Hv' Hne. congruence.
Qed.

(** C3, as stated, fails in each of its three cases: a token of two
    segments, a payload segment with characters outside the Base64 alphabet,
    and payloads that are JSON but not a claim (a number, an object without
    subject) are all accepted. *)
Lemma malformed_tokens_accepted :
  verifyToken (JString (str "eyJhbGciOiJub25lIiwidHlwIjoiSldUIn0=.eyJzdWIiOiJhQHguY29tIn0="))
  = Normal (claim (str "a@x.com"))
  /\ verifyToken (JString (str "x.!eyJzdWIi*OiJhQHguY29tIn0=."))
     = Normal (claim (str "a@x.com"))
  /\ verifyToken (JString (str "x.MTIz."))
     = Normal (JNumber {| d_neg := false; d_mant := 123; d_exp := 0 |})
  /\ verifyToken (JString (str "x.e30=.")) = Normal (JObject []).
Proof. repeat split; vm_compute; reflexivity. Qed.

(** ** The user store *)

Lemma readUsers_present fs bs :
  fs !! DB_FILE = Some bs -> readUsers fs = (fs, JSON_parse (utf8_decode bs)).
Proof.
  intros H. unfold readUsers, io_bind, existsSync. cbv beta iota.
  rewrite bool_decide_eq_true_2 by (rewrite H; eauto). cbn [negb].
  unfold readFileSync, lift. rewrite H. reflexivity.
Qed.

Lemma readUsers_absent fs :
  fs !! DB_FILE = None -> readUsers fs = (fs, Normal (JArray [])).
Proof.
  intros H. unfold readUsers, io_bind, existsSync, io_ret. cbv beta iota.
  rewrite bool_decide_eq_false_2 by (rewrite H; intros [x Hx]; discriminate).
  reflexivity.
Qed.

(** C8.  With no database file, [readUsers] returns the empty array; it
    does not throw, and it leaves the file system as it is. *)
Theorem readUsers_no_file fs :
  fs !! DB_FILE = None -> readUsers fs = (fs, Normal (JArray [])).
Proof.
  intros Habsent. unfold readUsers, io_bind, existsSync. cbv beta iota.
  assert (Hnone : ~ is_Some (fs !! DB_FILE)).
  { rewrite Habsent. intros [bs Hbs]. discriminate Hbs. }
  rewrite (bool_decide_eq_false_2 _ Hnone). reflexivity.
Qed.

Lemma readUsers_fs fs : fst (readUsers fs) = fs.
Proof.
  destruct (fs !! DB_FILE) as [bs|] eqn:E.
  - now rewrite (readUsers_present fs bs E).
  - now rewrite (readUsers_absent fs E).
Qed.

Lemma readUsers_no_file_witness :
  readUsers (∅ : filesystem) = (∅, Normal (JArray [])).
Proof. apply (readUsers_no_file ∅). reflexivity. Defined.

Lemma store_holds_read fs us :
  store_holds fs us -> readUsers fs = (fs, Normal (users_value us)).
Proof.
  unfold store_holds. intros H. pose proof (readUsers_fs fs) as Hfs.
  destruct (readUsers fs) as [fs0 r]. cbn [fst snd] in *. congruence.
Qed.

(** Writing a value of [json_ok] and reading the store gives the value. *)
Lemma readUsers_saveUsers_value v fs :
  json_ok v ->
  exists fs',
    saveUsers v fs = (fs', Normal tt)
    /\ readUsers fs' = (fs', Normal v)
    /\ forall p, p <> DB_FILE -> fs' !! p = fs !! p.
Proof.
  intros Hok. destruct (JSON_parse_stringify v 2 Hok) as (t & Ht & Hparse).
  destruct (utf8_stringify v 2 t Hok Ht) as [Hdec _].
  exists (<[DB_FILE := utf8_encode t]> fs).
  unfold saveUsers, writeFileSync. rewrite Ht. split; [reflexivity|]. split.
  - rewrite (readUsers_present _ (utf8_encode t)) by apply lookup_insert_eq.
    now rewrite Hdec, Hparse.
  - intros p Hp. now apply lookup_insert_ne.
Qed.

Lemma field_keys_nodup a b c :
  NoDup (map fst (field "name" a ++ field "email" b ++ field "password" c)).
Proof.
  destruct a, b, c; cbn [field app map fst];
    apply (bool_decide_unpack _); vm_compute; reflexivity.
Qed.

Lemma json_ok_field k x :
  wf_field x -> Forall (fun m => wf_string (fst m) /\ json_ok (snd m)) (field k x).
Proof.
  destruct x as [s|]; intros H; [|constructor].
  repeat constructor; [apply str_wf|exact H].
Qed.

Lemma json_ok_user u : wf_user u -> json_ok (user_value u).
Proof.
  intros (Hn & He & Hp). unfold user_value. constructor.
  - apply field_keys_nodup.
  - repeat apply Forall_app_2; now apply json_ok_field.
Qed.

Lemma json_ok_users us : Forall wf_user us -> json_ok (users_value us).
Proof.
  intros H. unfold users_value. constructor.
  apply Forall_fmap. eapply Forall_impl; [exact H|]. exact json_ok_user.
Qed.

(** C9.  Reading the store right after writing a sequence of user records
    returns that sequence. *)
Theorem readUsers_saveUsers us fs :
  Forall wf_user us ->
  exists fs',
    saveUsers (users_value us) fs = (fs', Normal tt)
    /\ readUsers fs' = (fs', Normal (users_value us)).
Proof.
  intros Hwf.
  destruct (readUsers_saveUsers_value (users_value us) fs (json_ok_users us Hwf))
    as (fs' & Hsave & Hread & _).
  eauto.
Qed.

Lemma readUsers_saveUsers_witness :
  exists fs',
    saveUsers (users_value [{| u_name := Some (str "Ann");
                               u_email := Some (str "a@x.com");
                               u_password := Some (str "p") |}]) ∅
    = (fs', Normal tt)
    /\ readUsers fs'
       = (fs', Normal (users_value [{| u_name := Some (str "Ann");
                                       u_email := Some (str "a@x.com");
                                       u_password := Some (str "p") |}])).
Proof.
  apply (readUsers_saveUsers
           [{| u_name := Some (str "Ann"); u_email := Some (str "a@x.com");
               u_password := Some (str "p") |}] ∅).
  apply List.Forall_cons; [|apply List.Forall_nil].
  unfold wf_user. cbn [u_name u_email u_password wf_field].
  repeat split; apply str_wf.
Defined.

(** ** What the handlers see of a request and of the store *)

Lemma own_prop_get ms k :
  obj_get ms k = match own_prop ms k with Some v => v | None => JUndefined end.
Proof.
  induction ms as [|[k' v'] ms IH]; cbn [obj_get own_prop]; [reflexivity|].
  destruct (bool_decide (k' = k)); [reflexivity|exact IH].
Qed.

Lemma own_prop_obj_set ms k v k' :
  own_prop (obj_set ms k v) k' = if bool_decide (k = k') then Some v else own_prop ms k'.
Proof.
  induction ms as [|[k0 v0] ms IH]; cbn [obj_set own_prop].
  - reflexivity.
  - destruct (decide (k0 = k)) as [->|Hne].
    + rewrite bool_decide_eq_true_2 by reflexivity. cbn [own_prop].
      destruct (bool_decide (k = k')); reflexivity.
    + rewrite bool_decide_eq_false_2 by exact Hne. cbn [own_prop]. rewrite IH.
      destruct (decide (k0 = k')) as [->|Hne'].
      * rewrite bool_decide_eq_true_2 by reflexivity.
        now rewrite bool_decide_eq_false_2 by congruence.
      * now rewrite (bool_decide_eq_false_2 (k0 = k')) by exact Hne'.
Qed.

Lemma obj_get_obj_set ms k v k' :
  obj_get (obj_set ms k v) k' = if bool_decide (k = k') then v else obj_get ms k'.
Proof.
  rewrite !own_prop_get, own_prop_obj_set.
  destruct (bool_decide (k = k')); reflexivity.
Qed.

Lemma own_prop_plain_set ms k v k' :
  own_prop (plain_set ms k v) k'
  = if bool_decide (k = proto_name) then own_prop ms k'
    else if bool_decide (k = k') then Some (JString v) else own_prop ms k'.
Proof.
  unfold plain_set. destruct (bool_decide (k = proto_name)); [reflexivity|].
  apply own_prop_obj_set.
Qed.

(** The own properties of the object [parseBody] builds: under every name
    but [__proto__], the last value sent. *)
Lemma parseBody_own req k :
  own_prop (parseBody req) k
  = if bool_decide (k = proto_name) then None
    else option_map JString (last_field k (req_form req)).
Proof.
  unfold parseBody, last_field.
  assert (Hgen : forall l acc r,
             own_prop acc k
             = (if bool_decide (k = proto_name) then None else option_map JString r) ->
             own_prop (fold_left (fun result kv => plain_set result (fst kv) (snd kv)) l acc) k
             = if bool_decide (k = proto_name) then None
               else option_map JString
                      (fold_left (fun r kv => if bool_decide (fst kv = k)
                                              then Some (snd kv) else r) l r)).
  { induction l as [|[k1 v1] l IH]; intros acc r Hacc; [exact Hacc|].
    cbn [fold_left fst snd]. apply IH. rewrite own_prop_plain_set.
    destruct (decide (k1 = k)) as [->|Hne].
    - rewrite (bool_decide_eq_true_2 (k = k)) by reflexivity.
      destruct (bool_decide (k = proto_name)); [exact Hacc|reflexivity].
    - rewrite (bool_decide_eq_false_2 (k1 = k)) by exact Hne.
      destruct (bool_decide (k1 = proto_name)); exact Hacc. }
  apply Hgen. now destruct (bool_decide (k = proto_name)).
Qed.

Lemma parseBody_get req k :
  k <> proto_name ->
  obj_get (parseBody req) k = opt_value (last_field k (req_form req)).
Proof.
  intros Hk. rewrite own_prop_get, parseBody_own.
  rewrite bool_decide_eq_false_2 by exact Hk.
  now destruct (last_field k (req_form req)).
Qed.

(** A field the plain server destructures is the last value sent under that
    name, and [undefined] when the name was not sent. *)
Lemma submitted_raw req k :
  str k <> proto_name ->
  submitted RawHttp req k = opt_value (last_field (str k) (req_form req)).
Proof. intros Hk. unfold submitted, body_of. now apply parseBody_get. Qed.

Lemma last_field_wf k form :
  Forall (fun kv : jsstring * jsstring => wf_string (snd kv)) form ->
  wf_field (last_field k form).
Proof.
  unfold last_field. intros Hwf.
  assert (Hgen : forall r, wf_field r ->
             wf_field (fold_left (fun r kv => if bool_decide (fst kv = k)
                                              then Some (snd kv) else r) form r)).
  { induction Hwf as [|kv l Hkv _ IH]; intros r Hr; [exact Hr|].
    cbn [fold_left]. apply IH. destruct (bool_decide (fst kv = k)); [exact Hkv|exact Hr]. }
  apply Hgen. exact I.
Qed.

Lemma storable_opt x : wf_field x -> storable (opt_value x).
Proof.
  destruct x as [s|]; intros H; [right; now constructor|now left].
Qed.

(** The fields the plain server reads are strings or absent: they can be
    stored. *)
Lemma wf_request_body req : wf_request req -> wf_body RawHttp req.
Proof.
  intros Hwf. unfold wf_body.
  rewrite !submitted_raw by (vm_compute; discriminate).
  repeat split; apply storable_opt, last_field_wf, Hwf.
Qed.

Lemma get_prop_email u :
  get_prop (user_value u) (str "email") = Normal (opt_value (u_email u)).
Proof. destruct u as [[a|] [b|] [c|]]; vm_compute; reflexivity. Qed.

Lemma strict_eq_opt a b : strict_eq (opt_value a) (opt_value b) = bool_decide (a = b).
Proof.
  destruct a as [s|], b as [t|]; cbn [opt_value strict_eq];
    try (symmetry; apply bool_decide_eq_false_2; discriminate);
    try (symmetry; apply bool_decide_eq_true_2; reflexivity).
  destruct (decide (s = t)) as [->|Hne].
  - now rewrite !bool_decide_eq_true_2.
  - rewrite !bool_decide_eq_false_2; congruence.
Qed.

Lemma get_email u : is_object u = true -> get_prop u (str "email") = Normal (email_of u).
Proof. destruct u; try discriminate. reflexivity. Qed.

Lemma get_password u :
  is_object u = true -> get_prop u (str "password") = Normal (password_of u).
Proof. destruct u; try discriminate. reflexivity. Qed.

Lemma truthy_object u : is_object u = true -> truthy u = true.
Proof. destruct u; try discriminate. reflexivity. Qed.

(** [users.find(u => u.email === email)] on a sequence of records. *)
Lemma find_has_email us email :
  Forall (fun u => is_object u = true) us ->
  Array_find (fun u => let* e := get_prop u (str "email") in
                       Normal (strict_eq e email))
             (JArray us)
  = Normal (match find (has_email email) us with
            | Some u => u
            | None => JUndefined
            end).
Proof.
  unfold Array_find. induction 1 as [|u us Hu _ IH]; [reflexivity|].
  cbn [find_first find]. rewrite (get_email u Hu). cbn [bind].
  unfold has_email at 1.
  destruct (strict_eq (email_of u) email); [reflexivity|exact IH].
Qed.

(** [users.find(u => u.email === email && u.password === password)]. *)
Lemma find_has_credentials us email password :
  Forall (fun u => is_object u = true) us ->
  Array_find (fun u => let* e := get_prop u (str "email") in
                       if strict_eq e email then
                         let* p := get_prop u (str "password") in
                         Normal (strict_eq p password)
                       else Normal false)
             (JArray us)
  = Normal (match find (has_credentials email password) us with
            | Some u => u
            | None => JUndefined
            end).
Proof.
  unfold Array_find. induction 1 as [|u us Hu _ IH]; [reflexivity|].
  cbn [find_first find]. rewrite (get_email u Hu). cbn [bind].
  unfold has_credentials at 1, has_email.
  destruct (strict_eq (email_of u) email); cbn [andb].
  - rewrite (get_password u Hu). cbn [bind].
    destruct (strict_eq (password_of u) password); [reflexivity|exact IH].
  - exact IH.
Qed.

Lemma truthy_found (f : value -> bool) us :
  Forall (fun u => is_object u = true) us ->
  truthy (match find f us with Some u => u | None => JUndefined end) = existsb f us.
Proof.
  induction 1 as [|u us Hu _ IH]; [reflexivity|]. cbn [find existsb].
  destruct (f u); [now apply truthy_object|exact IH].
Qed.

Lemma existsb_false_iff {A} (f : A -> bool) l :
  existsb f l = false <-> forall x, x ∈ l -> f x = false.
Proof.
  induction l as [|a l IH]; cbn [existsb].
  - split; [intros _ x Hx; now apply not_elem_of_nil in Hx|reflexivity].
  - rewrite orb_false_iff, IH. split.
    + intros [Ha Hl] x Hx. apply elem_of_cons in Hx as [->|Hx]; auto.
    + intros H. split; [apply H; left|intros x Hx; apply H; now right].
Qed.

Lemma existsb_true_iff {A} (f : A -> bool) l :
  existsb f l = true <-> exists x, x ∈ l /\ f x = true.
Proof.
  rewrite existsb_exists. split; intros (x & Hin & Hx); exists x;
    (split; [now apply list_elem_of_In|exact Hx]).
Qed.

Lemma store_read fs x : snd (readUsers fs) = Normal x -> readUsers fs = (fs, Normal x).
Proof.
  intros H. pose proof (readUsers_fs fs) as Hfs.
  destruct (readUsers fs) as [fs0 r]. cbn [fst snd] in *. congruence.
Qed.

(** A store of user records is a store of records. *)
Lemma store_holds_records fs us :
  store_holds fs us -> store_records fs (map user_value us).
Proof.
  intros H. split; [exact H|]. apply Forall_fmap, Forall_forall. reflexivity.
Qed.

(** The record as it is stored. *)
Lemma member_cases k x :
  (x = JUndefined /\ member k x = []) \/ (x <> JUndefined /\ member k x = [(str k, x)]).
Proof. destruct x; [left|right..]; split; (reflexivity || discriminate). Qed.

Lemma email_of_record n e p : email_of (record n e p) = e.
Proof.
  unfold record.
  destruct (member_cases "name" n) as [[_ ->]|[_ ->]],
           (member_cases "email" e) as [[-> ->]|[_ ->]],
           (member_cases "password" p) as [[_ ->]|[_ ->]];
    vm_compute; reflexivity.
Qed.

Lemma password_of_record n e p : password_of (record n e p) = p.
Proof.
  unfold record.
  destruct (member_cases "name" n) as [[_ ->]|[_ ->]],
           (member_cases "email" e) as [[_ ->]|[_ ->]],
           (member_cases "password" p) as [[-> ->]|[_ ->]];
    vm_compute; reflexivity.
Qed.

Lemma json_ok_member k x :
  storable x -> Forall (fun m => wf_string (fst m) /\ json_ok (snd m)) (member k x).
Proof.
  intros Hx. destruct (member_cases k x) as [[_ ->]|[Hne ->]]; [constructor|].
  destruct Hx as [Hx|Hx]; [contradiction|].
  repeat constructor; [apply str_wf|exact Hx].
Qed.

Lemma json_ok_record n e p :
  storable n -> storable e -> storable p -> json_ok (record n e p).
Proof.
  intros Hn He Hp. unfold record. constructor.
  - destruct (member_cases "name" n) as [[_ ->]|[_ ->]],
             (member_cases "email" e) as [[_ ->]|[_ ->]],
             (member_cases "password" p) as [[_ ->]|[_ ->]];
      cbn [app map fst]; apply (bool_decide_unpack _); vm_compute; reflexivity.
  - repeat apply Forall_app_2; now apply json_ok_member.
Qed.

Lemma json_ok_snoc us x : json_ok (JArray us) -> json_ok x -> json_ok (JArray (us ++ [x])).
Proof.
  intros Hus Hx. inversion Hus as [| | |vs Hvs|]; subst. constructor.
  apply Forall_app_2; [exact Hvs|]. now repeat constructor.
Qed.

(** The record a registration pushes and the record of [record] have the
    same text: a field that is [undefined] is not written. *)
Lemma member_texts_app gap indent a b :
  member_texts gap indent (a ++ b)
  = member_texts gap indent a ++ member_texts gap indent b.
Proof.
  induction a as [|[k x] a IH]; [reflexivity|]. cbn [app member_texts].
  destruct (serialize gap indent x); [cbn [app]; now rewrite IH|exact IH].
Qed.

Lemma member_texts_one gap indent k x :
  member_texts gap indent (member k x) = member_texts gap indent [(str k, x)].
Proof. destruct x; reflexivity. Qed.

Lemma member_texts_record gap indent n e p :
  member_texts gap indent [(str "name", n); (str "email", e); (str "password", p)]
  = member_texts gap indent (member "name" n ++ member "email" e ++ member "password" p).
Proof.
  rewrite !member_texts_app, !member_texts_one.
  change [(str "name", n); (str "email", e); (str "password", p)]
    with ([(str "name", n)] ++ [(str "email", e)] ++ [(str "password", p)]).
  now rewrite !member_texts_app.
Qed.

Lemma stringify_pushed us n e p :
  JSON_stringify
    (JArray (us ++ [JObject [(str "name", n); (str "email", e); (str "password", p)]])) 2
  = JSON_stringify (JArray (us ++ [record n e p])) 2.
Proof.
  unfold JSON_stringify. rewrite !serialize_array. do 2 f_equal.
  rewrite !map_app. f_equal. cbn [map]. f_equal.
  unfold element_text, record. rewrite !serialize_object.
  now rewrite member_texts_record.
Qed.

Lemma createToken_object ms : exists token, createToken (JObject ms) = Normal token.
Proof.
  rewrite createToken_segments. unfold encode_segment, JSON_stringify.
  rewrite serialize_object. cbn [Buffer_from bind]. eauto.
Qed.

(** The plain server runs, for a request with the method and URL of a route,
    the handler of that route. *)
Lemma server_handle r req :
  req_method req = str (fst (route_line r)) ->
  req_url req = str (snd (route_line r)) ->
  server req = handle RawHttp r req.
Proof.
  intros Hm Hu. unfold server, is_request. rewrite Hm, Hu.
  destruct r; reflexivity.
Qed.

(** A login only reads, whatever the store file contains. *)
Lemma login_reads_only v req fs : fst (handle v PostLogin req fs) = fs.
Proof.
  pose proof (readUsers_fs fs) as Hfs.
  destruct v; cbn [handle];
    unfold raw_post_login, express_post_login, io_bind, lift, io_ret;
    (destruct (readUsers fs) as [fs0 [users| |]]; cbn [fst] in Hfs; subst fs0;
     try reflexivity;
     destruct (Array_find _ users) as [found| |]; try reflexivity;
     destruct (negb (truthy found)); try reflexivity;
     destruct (createToken _); reflexivity).
Qed.

(** ** Registration and login *)

(** Each form handler reads its fields and goes on as the other variant
    does. *)
Lemma handle_register v req :
  handle v PostRegister req
  = register_tail v (submitted v req "name") (submitted v req "email")
                  (submitted v req "password").
Proof. destruct v; reflexivity. Qed.

Lemma handle_login v req :
  handle v PostLogin req
  = login_tail v (submitted v req "email") (submitted v req "password").
Proof. destruct v; reflexivity. Qed.

(** The common part of both registration handlers, from the write on. *)
Lemma register_write fs us n e p :
  json_ok (JArray us) -> storable n -> storable e -> storable p ->
  exists fs',
    saveUsers (JArray (us ++ [JObject [(str "name", n); (str "email", e);
                                       (str "password", p)]])) fs
    = (fs', Normal tt)
    /\ readUsers fs' = (fs', Normal (JArray (us ++ [record n e p])))
    /\ forall q, q <> DB_FILE -> fs' !! q = fs !! q.
Proof.
  intros Hok Hn He Hp.
  assert (Hok' : json_ok (JArray (us ++ [record n e p]))).
  { apply json_ok_snoc; [exact Hok|now apply json_ok_record]. }
  destruct (readUsers_saveUsers_value _ fs Hok') as (fs' & Hsave & Hread & Hother).
  exists fs'. split; [|split; [exact Hread|exact Hother]].
  unfold saveUsers in *. rewrite stringify_pushed. exact Hsave.
Qed.

Lemma register_tail_spec v n e p fs us :
  store_records fs us -> json_ok (JArray us) ->
  storable n -> storable e -> storable p ->
  exists fs' resp,
    register_tail v n e p fs = (fs', Normal resp)
    /\ if existsb (has_email e) us
       then fs' = fs /\ plain_redirect "/register" resp
       else store_records fs' (us ++ [record n e p])
            /\ (forall q, q <> DB_FILE -> fs' !! q = fs !! q)
            /\ session_response v e resp.
Proof.
  intros [Hread Hobj] Hok Hn He Hp.
  unfold register_tail, io_bind, lift, io_ret.
  rewrite (store_read _ _ Hread). cbv beta iota.
  rewrite (find_has_email us e Hobj), (truthy_found _ us Hobj).
  destruct (existsb (has_email e) us).
  - exists fs. eexists. split; [reflexivity|]. repeat split.
  - cbn [Array_push].
    destruct (register_write fs us n e p Hok Hn He Hp) as (fs' & Hsave & Hread' & Hother).
    rewrite Hsave.
    destruct (createToken_object [(str "sub", e)]) as (token & Htoken).
    rewrite Htoken. exists fs'. eexists. split; [reflexivity|].
    split; [|split; [exact Hother|]].
    + split; [now rewrite Hread'|].
      apply Forall_app_2; [exact Hobj|]. now repeat constructor.
    + repeat split. exists token. split; [exact Htoken|]. now destruct v.
Qed.

Lemma register_spec v req fs us :
  store_records fs us -> json_ok (JArray us) -> wf_body v req ->
  exists fs' resp,
    handle v PostRegister req fs = (fs', Normal resp)
    /\ if existsb (has_email (submitted v req "email")) us
       then fs' = fs /\ plain_redirect "/register" resp
       else store_records fs' (us ++ [new_record v req])
            /\ (forall q, q <> DB_FILE -> fs' !! q = fs !! q)
            /\ session_response v (submitted v req "email") resp.
Proof.
  intros Hst Hok (Hn & He & Hp). rewrite handle_register.
  now apply register_tail_spec.
Qed.

(** A registration that finds the e-mail taken needs nothing of the other
    fields. *)
Lemma register_taken v req fs us :
  store_records fs us ->
  existsb (has_email (submitted v req "email")) us = true ->
  handle v PostRegister req fs = (fs, Normal (redirect "/register")).
Proof.
  intros [Hread Hobj] Htaken. rewrite handle_register.
  unfold register_tail, io_bind, lift, io_ret.
  rewrite (store_read _ _ Hread). cbv beta iota.
  rewrite (find_has_email us _ Hobj), (truthy_found _ us Hobj), Htaken.
  reflexivity.
Qed.

Lemma login_spec v req fs us :
  store_records fs us ->
  exists resp,
    handle v PostLogin req fs = (fs, Normal resp)
    /\ if existsb (has_credentials (submitted v req "email") (submitted v req "password")) us
       then session_response v (submitted v req "email") resp
       else plain_redirect "/" resp.
Proof.
  intros [Hread Hobj]. rewrite handle_login.
  unfold login_tail, io_bind, lift, io_ret.
  rewrite (store_read _ _ Hread). cbv beta iota.
  rewrite (find_has_credentials us _ _ Hobj), (truthy_found _ us Hobj).
  destruct (existsb _ us); cbn [negb].
  - destruct (createToken_object [(str "sub", submitted v req "email")])
      as (token & Htoken).
    rewrite Htoken. eexists. split; [reflexivity|].
    repeat split. exists token. split; [exact Htoken|]. now destruct v.
  - eexists. split; [reflexivity|]. repeat split.
Qed.

(** The profile handlers only read. *)
Lemma raw_get_profile_fs req fs : fst (raw_get_profile req fs) = fs.
Proof.
  unfold raw_get_profile, io_bind, lift, io_ret.
  destruct (parseCookies req) as [cookies| |]; try reflexivity.
  destruct (if truthy (obj_get cookies (str "access_token"))
            then verifyToken (obj_get cookies (str "access_token"))
            else Normal (obj_get cookies (str "access_token")))
    as [payload| |]; try reflexivity.
  destruct (negb (truthy payload)); try reflexivity.
  pose proof (readUsers_fs fs) as Hfs.
  destruct (readUsers fs) as [fs0 [users| |]]; cbn [fst] in Hfs; subst fs0;
    try reflexivity.
  destruct (Array_find _ users) as [user| |]; try reflexivity.
  destruct (negb (truthy user)); reflexivity.
Qed.

Lemma express_get_profile_fs req fs : fst (express_get_profile req fs) = fs.
Proof.
  unfold express_get_profile, io_bind, lift, io_ret.
  destruct (if truthy (obj_get (cookieParser req) (str "access_token"))
            then verifyToken (obj_get (cookieParser req) (str "access_token"))
            else Normal (obj_get (cookieParser req) (str "access_token")))
    as [payload| |]; try reflexivity.
  destruct (negb (truthy payload)); try reflexivity.
  pose proof (readUsers_fs fs) as Hfs.
  destruct (readUsers fs) as [fs0 [users| |]]; cbn [fst] in Hfs; subst fs0;
    try reflexivity.
  destruct (Array_find _ users) as [user| |]; try reflexivity.
  destruct (negb (truthy user)); reflexivity.
Qed.

Lemma distinct_emails_snoc us x :
  distinct_emails us ->
  (forall u, u ∈ us -> has_email (email_of x) u = false) ->
  distinct_emails (us ++ [x]).
Proof.
  induction us as [|u us IH]; cbn [distinct_emails app]; intros Hd Hx.
  - split; [constructor|exact I].
  - destruct Hd as [Hu Hd]. split.
    + apply Forall_app_2; [exact Hu|]. repeat constructor. apply Hx. left.
    + apply IH; [exact Hd|]. intros u' Hin. apply Hx. now right.
Qed.

Lemma email_strings_in s us :
  s ∈ email_strings us <-> exists u, u ∈ us /\ email_of u = JString s.
Proof.
  unfold email_strings. rewrite list_elem_of_omap. split.
  - intros (u & Hin & Hu). exists u. split; [exact Hin|].
    destruct (email_of u); try discriminate. now injection Hu as ->.
  - intros (u & Hin & Hu). exists u. split; [exact Hin|]. now rewrite Hu.
Qed.

(** In a sequence with distinct e-mails no e-mail string occurs twice. *)
Lemma distinct_emails_strings us : distinct_emails us -> NoDup (email_strings us).
Proof.
  induction us as [|u us IH]; cbn [distinct_emails]; intros Hd; [apply NoDup_nil_2|].
  destruct Hd as [Hu Hd]. specialize (IH Hd).
  unfold email_strings in *. cbn [omap list_omap].
  destruct (email_of u) as [| | | |s| | |] eqn:Eu; try exact IH.
  apply NoDup_cons. split; [|exact IH].
  intros Hin. apply (email_strings_in s us) in Hin as (u' & Hin & Hu').
  pose proof (proj1 (Forall_forall _ _) Hu u' Hin) as Hne.
  unfold has_email in Hne. rewrite Eu, Hu' in Hne. cbn [strict_eq] in Hne.
  now rewrite bool_decide_eq_true_2 in Hne.
Qed.

(** Every handler keeps the invariant of the store. *)
Lemma handle_store_ok v r req fs :
  store_ok fs -> (r = PostRegister -> wf_body v req) ->
  store_ok (fst (handle v r req fs)).
Proof.
  intros (us & Hst & Hok & Hd) Hreq.
  destruct r.
  - destruct v; exact (ex_intro _ us (conj Hst (conj Hok Hd))).
  - destruct v; exact (ex_intro _ us (conj Hst (conj Hok Hd))).
  - destruct v; cbn [handle];
      rewrite ?raw_get_profile_fs, ?express_get_profile_fs;
      exact (ex_intro _ us (conj Hst (conj Hok Hd))).
  - specialize (Hreq eq_refl).
    destruct (register_spec v req fs us Hst Hok Hreq) as (fs' & resp & -> & Hcase).
    cbn [fst].
    destruct (existsb (has_email (submitted v req "email")) us) eqn:Htaken.
    + destruct Hcase as [-> _]. exact (ex_intro _ us (conj Hst (conj Hok Hd))).
    + destruct Hcase as (Hst' & _ & _). destruct Hreq as (Hn & He & Hp).
      exists (us ++ [new_record v req]). split; [exact Hst'|]. split.
      * apply json_ok_snoc; [exact Hok|now apply json_ok_record].
      * apply distinct_emails_snoc; [exact Hd|].
        unfold new_record. rewrite email_of_record.
        now apply existsb_false_iff.
  - rewrite login_reads_only. exact (ex_intro _ us (conj Hst (conj Hok Hd))).
  - destruct v; exact (ex_intro _ us (conj Hst (conj Hok Hd))).
Qed.

(** C5, as the program behaves.  The store keeps at most one record per
    e-mail, the e-mails being compared with [===] as they are: there is no
    normalisation, and an e-mail that is not a string ([req.body] of the
    Express application holds an array or an object for a repeated or
    bracketed field) is [===] to none, so that such a record is appended
    every time.  The invariant holds after every sequence of requests to
    either variant; a registration with an e-mail that is [===] to that of a
    record is answered with a redirect to the form and leaves the store as
    it was; and in a store that satisfies the invariant no e-mail string
    occurs twice.  (The fields of a registration are to be values that the
    file can hold, [wf_body]: strings, and arrays or objects of strings.) *)
Theorem unique_emails_preserved v :
  (forall ops fs,
      store_ok fs ->
      Forall (fun op => fst op = PostRegister -> wf_body v (snd op)) ops ->
      store_ok (run v ops fs))
  /\ (forall req fs us,
         store_records fs us ->
         (exists u, u ∈ us /\ has_email (submitted v req "email") u = true) ->
         exists resp,
           handle v PostRegister req fs = (fs, Normal resp)
           /\ plain_redirect "/register" resp)
  /\ (forall fs us,
         store_ok fs -> store_records fs us -> NoDup (email_strings us)).
Proof.
  split; [|split].
  - intros ops. induction ops as [|[r req] ops IH]; intros fs Hok Hwf; [exact Hok|].
    apply Forall_cons in Hwf as [Hreq Hwf]. cbn [run].
    apply IH; [|exact Hwf]. now apply handle_store_ok.
  - intros req fs us Hst Hex.
    apply existsb_true_iff in Hex.
    rewrite (register_taken v req fs us Hst Hex).
    eexists. split; [reflexivity|]. repeat split.
  - intros fs us (us' & [Hread' _] & _ & Hd) [Hread _].
    rewrite Hread in Hread'. injection Hread' as <-.
    now apply distinct_emails_strings.
Qed.

(** C10.  When no stored record has the submitted e-mail, registration
    answers with the session redirect and the store then holds the former
    sequence, in order and unchanged, followed by the record of the three
    fields as the handler read them; no other file changes. *)
Theorem registration_appends v req fs us :
  store_records fs us -> json_ok (JArray us) -> wf_body v req ->
  (forall u, u ∈ us -> has_email (submitted v req "email") u = false) ->
  exists fs' resp,
    handle v PostRegister req fs = (fs', Normal resp)
    /\ session_response v (submitted v req "email") resp
    /\ store_records fs' (us ++ [new_record v req])
    /\ forall q, q <> DB_FILE -> fs' !! q = fs !! q.
Proof.
  intros Hst Hok Hreq Hfresh.
  destruct (register_spec v req fs us Hst Hok Hreq) as (fs' & resp & Hrun & Hcase).
  apply existsb_false_iff in Hfresh. rewrite Hfresh in Hcase.
  destruct Hcase as (Hst' & Hother & Hresp). exists fs', resp. auto.
Qed.

(** C6.  A login never changes the file system, whatever it holds.  And on
    every store that holds a sequence of records, a login whose e-mail no
    record has, or whose password is not the one of the records with that
    e-mail, is answered with a redirect to the home page without cookie:
    for both variants and every request, the fields being compared with
    [===] as the handler read them. *)
Theorem login_failure v req fs :
  fst (handle v PostLogin req fs) = fs
  /\ forall us,
      store_records fs us ->
      (forall u, u ∈ us -> has_email (submitted v req "email") u = false)
      \/ (forall u, u ∈ us -> has_email (submitted v req "email") u = true ->
                    strict_eq (password_of u) (submitted v req "password") = false) ->
      exists resp,
        handle v PostLogin req fs = (fs, Normal resp) /\ plain_redirect "/" resp.
Proof.
  split; [apply login_reads_only|]. intros us Hst Hbad.
  destruct (login_spec v req fs us Hst) as (resp & Hrun & Hcase).
  exists resp. split; [exact Hrun|].
  destruct (existsb _ us) eqn:Hm; [|exact Hcase].
  exfalso. apply existsb_true_iff in Hm as (u & Hin & Hu).
  unfold has_credentials in Hu. apply andb_true_iff in Hu as [He Hp].
  destruct Hbad as [Hbad|Hbad].
  - rewrite (Hbad u Hin) in He. discriminate.
  - rewrite (Hbad u Hin He) in Hp. discriminate.
Qed.

(** ** Sample runs *)

Lemma post_form_wf url fields : wf_request (post_form url fields).
Proof.
  unfold wf_request, post_form. cbn [req_form].
  apply Forall_fmap, Forall_forall. intros kv _. apply str_wf.
Qed.

(** The Express application finds in [req.body] of a sample form what the
    plain server makes of its pairs, when no field is named twice. *)
Lemma post_form_wf_body v url fields : wf_body v (post_form url fields).
Proof.
  destruct v; [apply wf_request_body, post_form_wf|].
  assert (Hall : Forall (fun m : jsstring * value => storable (snd m))
                        (req_body (post_form url fields))).
  { unfold post_form. cbn [req_body]. apply Forall_fmap, Forall_forall.
    intros kv _. right. constructor. apply str_wf. }
  assert (Hget : forall ms k,
             Forall (fun m : jsstring * value => storable (snd m)) ms ->
             storable (obj_get ms k)).
  { intros ms k. induction 1 as [|[k' x] ms Hx _ IH]; cbn [obj_get]; [now left|].
    destruct (bool_decide (k' = k)); [exact Hx|exact IH]. }
  unfold wf_body, submitted, body_of. repeat split; now apply Hget.
Qed.

Lemma store_ann_holds : store_holds store_ann [ann].
Proof. vm_compute. reflexivity. Qed.

Lemma store_ann_records : store_records store_ann [user_value ann].
Proof. exact (store_holds_records store_ann [ann] store_ann_holds). Qed.

Lemma ann_wf : Forall wf_user [ann].
Proof.
  apply List.Forall_cons; [|apply List.Forall_nil].
  unfold wf_user, ann. cbn [u_name u_email u_password wf_field].
  repeat split; apply str_wf.
Qed.

Lemma store_ann_json : json_ok (JArray [user_value ann]).
Proof. exact (json_ok_users [ann] ann_wf). Qed.

Lemma repeated_email_wf url : wf_body Express (repeated_email url).
Proof.
  unfold wf_body, submitted, body_of, repeated_email. cbn [req_body].
  split; [left; vm_compute; reflexivity|]. split; right.
  - change (obj_get _ (str "email"))
      with (JArray [JString (str "zz"); JString (str "a@x.com")]).
    apply json_ok_array.
    repeat (apply List.Forall_cons; [apply json_ok_string, str_wf|]).
    apply List.Forall_nil.
  - change (obj_get _ (str "password")) with (JString (str "p")).
    apply json_ok_string, str_wf.
Qed.

Lemma repeated_email_fresh url u :
  u ∈ [user_value ann] ->
  has_email (submitted Express (repeated_email url) "email") u = false.
Proof. intros Hin. apply list_elem_of_singleton in Hin. subst u. reflexivity. Qed.

Lemma registration_appends_witness :
  exists fs' resp,
    handle Express PostRegister (repeated_email "/register") store_ann
    = (fs', Normal resp)
    /\ session_response Express (submitted Express (repeated_email "/register") "email")
                        resp
    /\ store_records fs' ([user_value ann] ++ [new_record Express (repeated_email "/register")])
    /\ forall q, q <> DB_FILE -> fs' !! q = store_ann !! q.
Proof.
  apply (registration_appends Express (repeated_email "/register") store_ann
           [user_value ann]).
  - exact store_ann_records.
  - exact store_ann_json.
  - exact (repeated_email_wf "/register").
  - exact (repeated_email_fresh "/register").
Defined.

Lemma login_failure_witness :
  exists resp,
    handle Express PostLogin (repeated_email "/login") store_ann
    = (store_ann, Normal resp)
    /\ plain_redirect "/" resp.
Proof.
  apply (proj2 (login_failure Express (repeated_email "/login") store_ann)
               [user_value ann]).
  - exact store_ann_records.
  - left. exact (repeated_email_fresh "/login").
Defined.

Lemma store_ok_empty : store_ok ∅.
Proof.
  exists []. split; [split; [reflexivity|constructor]|].
  split; [repeat constructor|exact I].
Qed.

Lemma sample_ops_wf :
  Forall (fun op : route * request => fst op = PostRegister -> wf_body Express (snd op))
         [(PostRegister, register_ann); (PostRegister, repeated_email "/register");
          (PostRegister, repeated_email "/register"); (PostRegister, register_ann);
          (PostLogin, login_ann_wrong)].
Proof.
  repeat (apply List.Forall_cons;
          [intros _; first [apply post_form_wf_body|apply repeated_email_wf]|]).
  apply List.Forall_nil.
Qed.

Lemma unique_emails_preserved_witness :
  store_ok (run Express
                [(PostRegister, register_ann); (PostRegister, repeated_email "/register");
                 (PostRegister, repeated_email "/register"); (PostRegister, register_ann);
                 (PostLogin, login_ann_wrong)] ∅).
Proof.
  apply (proj1 (unique_emails_preserved Express)).
  - exact store_ok_empty.
  - exact sample_ops_wf.
Defined.

Lemma verifyToken_null_iff_witness : verifyToken (JString (str "x")) = Normal JNull.
Proof.
  apply (proj1 (verifyToken_null_iff (str "x"))). left. vm_compute. lia.
Defined.

(** C5, as stated, fails: with the plain server as with Express, after
    [a@x.com] is registered a registration of [A@x.com] succeeds, and the
    store then holds two records whose e-mails have the same normal form. *)
Lemma same_normalized_email_twice :
  (exists resp,
      snd (handle RawHttp PostRegister register_bob_upper store_ann) = Normal resp
      /\ location resp = Some (str "/profile"))
  /\ store_holds (fst (handle RawHttp PostRegister register_bob_upper store_ann))
                 [ann; bob_upper]
  /\ store_holds (fst (handle Express PostRegister register_bob_upper store_ann))
                 [ann; bob_upper]
  /\ option_map normalize_email (u_email ann)
     = option_map normalize_email (u_email bob_upper).
Proof.
  split; [eexists; split; vm_compute; reflexivity|].
  repeat split; vm_compute; reflexivity.
Qed.

(** The Express application stores the record of a form with a repeated
    e-mail field every time the form is sent: the e-mail is an array, which
    is [===] to no stored e-mail. *)
Lemma repeated_email_twice :
  snd (readUsers (run Express [(PostRegister, repeated_email "/register");
                               (PostRegister, repeated_email "/register")] ∅))
  = Normal (JArray [record_repeated; record_repeated]).
Proof. vm_compute. reflexivity. Qed.

(** C7 fails on the profile page.  The plain server cuts the cookie at its
    first [=], which is the padding of the header segment, so [verifyToken]
    sees one segment and the request is redirected; the Express application
    reads the whole token and shows Ann's profile. *)
Lemma profile_variants_differ :
  createToken (claim (str "a@x.com")) = Normal token_ann
  /\ store_holds store_ann [ann]
  /\ parseCookies profile_ann
     = Normal [(str "access_token", JString (str "eyJhbGciOiJub25lIiwidHlwIjoiSldUIn0"))]
  /\ server profile_ann store_ann = (store_ann, Normal (redirect "/"))
  /\ handle RawHttp GetProfile profile_ann store_ann = (store_ann, Normal (redirect "/"))
  /\ handle Express GetProfile profile_ann store_ann
     = (store_ann, Normal (send (ProfilePage (user_value ann)))).
Proof. repeat split; vm_compute; reflexivity. Qed.

(** On the forms the two variants answer alike, whatever the store file
    contains, when they read the same fields [name], [email] and
    [password]. *)
Lemma form_handlers_agree req fs :
  (forall k, submitted Express req k = submitted RawHttp req k) ->
  same_outcome (raw_post_register req fs) (express_post_register req fs)
  /\ same_outcome (raw_post_login req fs) (express_post_login req fs)
  /\ same_outcome (raw_post_logout fs) (express_post_logout fs).
Proof.
  intros Hsame. unfold same_outcome.
  pose proof (readUsers_fs fs) as Hfs.
  change (raw_post_register req) with (handle RawHttp PostRegister req).
  change (express_post_register req) with (handle Express PostRegister req).
  change (raw_post_login req) with (handle RawHttp PostLogin req).
  change (express_post_login req) with (handle Express PostLogin req).
  rewrite !handle_register, !handle_login, !Hsame.
  split; [|split].
  - unfold register_tail, io_bind, lift, io_ret.
    destruct (readUsers fs) as [fs0 [users| |]]; cbn [fst] in Hfs; subst fs0;
      try (split; reflexivity).
    destruct (Array_find _ users) as [found| |]; try (split; reflexivity).
    destruct (truthy found); [repeat split|].
    destruct (Array_push users _) as [users'| |]; try (split; reflexivity).
    destruct (saveUsers users' fs) as [fs1 [[]| |]]; try (split; reflexivity).
    destruct (createToken _) as [token| |]; try (split; reflexivity).
    repeat split.
  - unfold login_tail, io_bind, lift, io_ret.
    destruct (readUsers fs) as [fs0 [users| |]]; cbn [fst] in Hfs; subst fs0;
      try (split; reflexivity).
    destruct (Array_find _ users) as [found| |]; try (split; reflexivity).
    destruct (negb (truthy found)); [repeat split|].
    destruct (createToken _) as [token| |]; try (split; reflexivity).
    repeat split.
  - repeat split.
Qed.

(** * Further properties of the two programs *)

(** ** The token codec *)

Lemma serialize_none gap indent v :
  serialize gap indent v = None -> v = JUndefined \/ v = JFunction.
Proof. destruct v; cbn [serialize]; intros H; try discriminate; auto. Qed.

(** X1.  [createToken] throws a TypeError on a payload that
    [JSON.stringify] turns into [undefined] ([undefined] itself or a
    function), and on nothing else: every other payload gets a token. *)
Theorem createToken_outcome payload :
  match payload with
  | JUndefined | JFunction => createToken payload = Throw TypeError
  | _ => exists token, createToken payload = Normal token
  end.
Proof.
  rewrite createToken_segments. unfold encode_segment, JSON_stringify.
  destruct payload; try reflexivity; cbn [serialize Buffer_from bind]; eauto.
Qed.

(** X2.  A token issued for a payload of [json_ok] has exactly three
    segments: the constant header, the Base64 text of the payload's JSON,
    and an empty signature. *)
Theorem createToken_shape c token :
  json_ok c -> createToken c = Normal token ->
  exists seg,
    encode_segment c = Normal seg
    /\ split 46 token = [header_segment; seg; []].
Proof.
  intros Hok Htoken.
  destruct (json_ok_segment c Hok) as (seg & Hseg).
  destruct (encode_segment_decodes c seg Hok Hseg) as [Hdot _].
  rewrite createToken_segments, Hseg in Htoken.
  pose proof header_no_dot as Hh.
  set (hs := header_segment) in *. clearbody hs.
  cbn [bind] in Htoken. injection Htoken as <-.
  exists seg. split; [exact Hseg|].
  rewrite split_app_sep by exact Hh. rewrite split_app_sep by exact Hdot.
  reflexivity.
Qed.

Lemma createToken_shape_witness :
  exists seg,
    encode_segment (claim (str "a@x.com")) = Normal seg
    /\ split 46 token_ann = [header_segment; seg; []].
Proof.
  apply (createToken_shape (claim (str "a@x.com")) token_ann).
  - apply json_ok_claim, str_wf.
  - vm_compute. reflexivity.
Defined.

(** X3.  [verifyToken] reads the second segment only: two tokens with the
    same second segment get the same result, whatever their header and
    whatever follows the second dot. *)
Theorem verifyToken_second_segment h h' seg tail tail' :
  Forall (fun c => c <> 46) h -> Forall (fun c => c <> 46) h' ->
  Forall (fun c => c <> 46) seg ->
  verifyToken (JString (h ++ 46 :: seg ++ 46 :: tail))
  = verifyToken (JString (h' ++ 46 :: seg ++ 46 :: tail')).
Proof.
  intros Hh Hh' Hseg. unfold verifyToken, String_split. cbn [bind].
  rewrite !split_app_sep by assumption. reflexivity.
Qed.

Lemma verifyToken_second_segment_witness :
  verifyToken (JString (str "abc" ++ 46 :: str "e30=" ++ 46 :: str "sig.more"))
  = verifyToken (JString (str "" ++ 46 :: str "e30=" ++ 46 :: str "")).
Proof.
  apply (verifyToken_second_segment (str "abc") (str "") (str "e30=")
           (str "sig.more") (str ""));
    vm_compute; repeat (apply List.Forall_cons; [discriminate|]); apply List.Forall_nil.
Defined.

(** The token issued for a claim verifies to the claim. *)
Lemma verifyToken_issued c token :
  json_ok c -> createToken c = Normal token ->
  verifyToken (JString token) = Normal c.
Proof.
  intros Hok Htoken.
  destruct (json_ok_segment c Hok) as (seg & Hseg).
  destruct (encode_segment_decodes c seg Hok Hseg) as [Hdot Hparse].
  rewrite createToken_segments, Hseg in Htoken.
  pose proof header_no_dot as Hh.
  set (hs := header_segment) in *. clearbody hs.
  cbn [bind] in Htoken. injection Htoken as <-.
  change (hs ++ 46 :: seg ++ [46]) with (hs ++ 46 :: seg ++ 46 :: []).
  now apply verifyToken_segments.
Qed.

(** ** The user store *)

(** X4.  A second [saveUsers] replaces the file of the first: the store then
    reads as the second value, and the file system is the one the second
    call alone would have produced. *)
Theorem saveUsers_last_wins a b fs :
  json_ok a -> json_ok b ->
  exists fs1 fs2,
    saveUsers a fs = (fs1, Normal tt)
    /\ saveUsers b fs1 = (fs2, Normal tt)
    /\ readUsers fs2 = (fs2, Normal b)
    /\ saveUsers b fs = (fs2, Normal tt).
Proof.
  intros Ha Hb.
  destruct (JSON_parse_stringify a 2 Ha) as (ta & Hta & _).
  destruct (JSON_parse_stringify b 2 Hb) as (tb & Htb & Hparse).
  destruct (utf8_stringify b 2 tb Hb Htb) as [Hdec _].
  exists (<[DB_FILE := utf8_encode ta]> fs), (<[DB_FILE := utf8_encode tb]> fs).
  unfold saveUsers, writeFileSync. rewrite Hta, Htb.
  rewrite insert_insert_eq. repeat split.
  rewrite (readUsers_present _ (utf8_encode tb)) by apply lookup_insert_eq.
  now rewrite Hdec, Hparse.
Qed.

Lemma saveUsers_last_wins_witness :
  exists fs1 fs2,
    saveUsers (users_value [ann]) ∅ = (fs1, Normal tt)
    /\ saveUsers (users_value [ann; bob_upper]) fs1 = (fs2, Normal tt)
    /\ readUsers fs2 = (fs2, Normal (users_value [ann; bob_upper]))
    /\ saveUsers (users_value [ann; bob_upper]) ∅ = (fs2, Normal tt).
Proof.
  apply (saveUsers_last_wins (users_value [ann]) (users_value [ann; bob_upper]) ∅);
    apply json_ok_users;
    repeat (apply List.Forall_cons;
            [unfold wf_user; cbn [ann bob_upper u_name u_email u_password wf_field];
             repeat split; apply str_wf|]);
    apply List.Forall_nil.
Defined.

(** ** What the handlers write *)

Lemma raw_register_frame req fs p :
  p <> DB_FILE -> fst (raw_post_register req fs) !! p = fs !! p.
Proof.
  intros Hp. pose proof (readUsers_fs fs) as Hfs.
  unfold raw_post_register, io_bind, lift, io_ret.
  destruct (readUsers fs) as [fs0 [users| |]]; cbn [fst] in Hfs; subst fs0;
    try reflexivity.
  destruct (Array_find _ users) as [found| |]; try reflexivity.
  destruct (truthy found); try reflexivity.
  destruct (Array_push users _) as [users'| |]; try reflexivity.
  unfold saveUsers, writeFileSync.
  destruct (JSON_stringify users' 2) as [t|]; [|reflexivity].
  destruct (createToken _); cbn [fst]; now apply lookup_insert_ne.
Qed.

Lemma express_register_frame req fs p :
  p <> DB_FILE -> fst (express_post_register req fs) !! p = fs !! p.
Proof.
  intros Hp. pose proof (readUsers_fs fs) as Hfs.
  unfold express_post_register, io_bind, lift, io_ret.
  destruct (readUsers fs) as [fs0 [users| |]]; cbn [fst] in Hfs; subst fs0;
    try reflexivity.
  destruct (Array_find _ users) as [found| |]; try reflexivity.
  destruct (truthy found); try reflexivity.
  destruct (Array_push users _) as [users'| |]; try reflexivity.
  unfold saveUsers, writeFileSync.
  destruct (JSON_stringify users' 2) as [t|]; [|reflexivity].
  destruct (createToken _); cbn [fst]; now apply lookup_insert_ne.
Qed.

(** X5.  Whatever the request and whatever the files contain (a broken
    store file included, and also when the handler throws), no handler
    touches a file other than [users.json], and only the registration
    handler writes at all. *)
Theorem handlers_frame v r req fs :
  (r <> PostRegister -> fst (handle v r req fs) = fs)
  /\ (forall p, p <> DB_FILE -> fst (handle v r req fs) !! p = fs !! p).
Proof.
  assert (Hsame : r <> PostRegister -> fst (handle v r req fs) = fs).
  { intros Hr. destruct r; try congruence.
    - destruct v; reflexivity.
    - destruct v; reflexivity.
    - destruct v; [apply raw_get_profile_fs|apply express_get_profile_fs].
    - apply login_reads_only.
    - destruct v; reflexivity. }
  split; [exact Hsame|]. intros p Hp.
  destruct r; try (rewrite Hsame by discriminate; reflexivity).
  destruct v; [now apply raw_register_frame|now apply express_register_frame].
Qed.

Lemma handlers_frame_witness :
  fst (handle RawHttp GetProfile profile_ann store_ann) = store_ann
  /\ fst (handle Express PostRegister register_bob_upper store_ann) !! "other.txt"%string
     = store_ann !! "other.txt"%string.
Proof.
  split.
  - apply (proj1 (handlers_frame RawHttp GetProfile profile_ann store_ann)).
    discriminate.
  - apply (proj2 (handlers_frame Express PostRegister register_bob_upper store_ann)).
    discriminate.
Defined.

(** X6.  When the store file cannot be read as an array (it is not JSON, or
    it is JSON of another kind, so that [users.find] is not a function),
    registration and login throw, in both variants, and write nothing. *)
Theorem broken_store_throws v req fs e :
  snd (readUsers fs) = Throw e
  \/ (e = TypeError
      /\ exists x, snd (readUsers fs) = Normal x /\ forall l, x <> JArray l) ->
  handle v PostRegister req fs = (fs, Throw e)
  /\ handle v PostLogin req fs = (fs, Throw e).
Proof.
  intros Hbroken. pose proof (readUsers_fs fs) as Hfs.
  assert (Hfind : forall p x, (forall l, x <> JArray l) -> Array_find p x = Throw TypeError).
  { intros p x Hx. destruct x; try reflexivity. now destruct (Hx vs). }
  destruct (readUsers fs) as [fs0 r] eqn:Hread. cbn [fst snd] in *. subst fs0.
  destruct Hbroken as [->|(-> & x & -> & Hx)];
    split; destruct v; cbn [handle];
      unfold raw_post_register, express_post_register, raw_post_login,
             express_post_login, io_bind, lift, io_ret;
      rewrite Hread; rewrite ?Hfind by exact Hx; reflexivity.
Qed.

Lemma broken_store_throws_witness :
  handle RawHttp PostRegister register_ann {[ DB_FILE := @nil Z ]}
  = ({[ DB_FILE := @nil Z ]}, Throw SyntaxError)
  /\ handle RawHttp PostLogin register_ann {[ DB_FILE := @nil Z ]}
     = ({[ DB_FILE := @nil Z ]}, Throw SyntaxError).
Proof.
  apply (broken_store_throws RawHttp register_ann {[ DB_FILE := @nil Z ]} SyntaxError).
  left. vm_compute. reflexivity.
Defined.

(** ** Sessions *)

(** X7.  A login whose e-mail and password are [===] to those of a stored
    record is answered with a redirect to the profile and, in the cookie,
    the token of the submitted e-mail; the file system is unchanged. *)
Theorem login_success v req fs us :
  store_records fs us ->
  (exists u, u ∈ us
             /\ has_credentials (submitted v req "email") (submitted v req "password") u
                = true) ->
  exists resp,
    handle v PostLogin req fs = (fs, Normal resp)
    /\ session_response v (submitted v req "email") resp.
Proof.
  intros Hst Hex. apply existsb_true_iff in Hex.
  destruct (login_spec v req fs us Hst) as (resp & Hrun & Hcase).
  rewrite Hex in Hcase. eauto.
Qed.

Lemma login_ann_matches :
  exists u, u ∈ [user_value ann]
            /\ has_credentials (submitted Express (login_request "a@x.com" "p") "email")
                               (submitted Express (login_request "a@x.com" "p") "password") u
               = true.
Proof.
  exists (user_value ann). split; [apply list_elem_of_singleton; reflexivity|].
  vm_compute. reflexivity.
Qed.

Lemma login_success_witness :
  exists resp,
    handle Express PostLogin (login_request "a@x.com" "p") store_ann
    = (store_ann, Normal resp)
    /\ session_response Express (submitted Express (login_request "a@x.com" "p") "email")
                        resp.
Proof.
  apply (login_success Express (login_request "a@x.com" "p") store_ann [user_value ann]).
  - exact store_ann_records.
  - exact login_ann_matches.
Defined.

Lemma strict_eq_text x : is_text x = true -> strict_eq x x = true.
Proof.
  destruct x; try discriminate; intros _; [reflexivity|].
  cbn [strict_eq]. now apply bool_decide_eq_true_2.
Qed.

(** X8.  After a successful registration whose e-mail and password are
    strings (or absent), a login with the same e-mail and password succeeds
    and gets the token of that e-mail.  (An e-mail that the Express
    application holds as an array is stored, but no login matches it.) *)
Theorem register_then_login v req req' fs us :
  store_records fs us -> json_ok (JArray us) -> wf_body v req ->
  (forall u, u ∈ us -> has_email (submitted v req "email") u = false) ->
  is_text (submitted v req "email") = true ->
  is_text (submitted v req "password") = true ->
  submitted v req' "email" = submitted v req "email" ->
  submitted v req' "password" = submitted v req "password" ->
  exists fs' resp resp',
    handle v PostRegister req fs = (fs', Normal resp)
    /\ handle v PostLogin req' fs' = (fs', Normal resp')
    /\ session_response v (submitted v req "email") resp
    /\ session_response v (submitted v req "email") resp'.
Proof.
  intros Hst Hok Hreq Hfresh Hte Htp He Hp.
  destruct (register_spec v req fs us Hst Hok Hreq) as (fs' & resp & Hrun & Hcase).
  apply existsb_false_iff in Hfresh. rewrite Hfresh in Hcase.
  destruct Hcase as (Hst' & _ & Hresp).
  destruct (login_spec v req' fs' _ Hst') as (resp' & Hrun' & Hcase').
  assert (Hm : existsb (has_credentials (submitted v req' "email")
                                        (submitted v req' "password"))
                       (us ++ [new_record v req]) = true).
  { apply existsb_true_iff. exists (new_record v req).
    split; [apply elem_of_app; right; apply list_elem_of_singleton; reflexivity|].
    rewrite He, Hp. unfold has_credentials, has_email, new_record.
    rewrite email_of_record, password_of_record.
    now rewrite !strict_eq_text. }
  rewrite Hm, He in Hcase'. exists fs', resp, resp'. auto.
Qed.

Lemma no_record_yet (e : value) u : u ∈ @nil value -> has_email e u = false.
Proof. intros Hin. now apply not_elem_of_nil in Hin. Qed.

Lemma store_empty_records : store_records ∅ [].
Proof. split; [reflexivity|constructor]. Qed.

Lemma empty_json : json_ok (JArray []).
Proof. repeat constructor. Qed.

Lemma register_then_login_witness :
  exists fs' resp resp',
    handle Express PostRegister register_ann ∅ = (fs', Normal resp)
    /\ handle Express PostLogin (login_request "a@x.com" "p") fs' = (fs', Normal resp')
    /\ session_response Express (submitted Express register_ann "email") resp
    /\ session_response Express (submitted Express register_ann "email") resp'.
Proof.
  apply (register_then_login Express register_ann (login_request "a@x.com" "p") ∅ []).
  - exact store_empty_records.
  - exact empty_json.
  - exact (post_form_wf_body Express _ _).
  - exact (no_record_yet _).
  - reflexivity.
  - reflexivity.
  - reflexivity.
  - reflexivity.
Defined.

(** X9.  Two registrations in a row, with e-mails that are [===] neither to
    each other nor to a stored one, both persist: the store then holds the
    former records followed by the two new ones, in the order submitted. *)
Theorem two_registrations_persist v req1 req2 fs us :
  store_records fs us -> json_ok (JArray us) -> wf_body v req1 -> wf_body v req2 ->
  (forall u, u ∈ us -> has_email (submitted v req1 "email") u = false) ->
  (forall u, u ∈ us -> has_email (submitted v req2 "email") u = false) ->
  strict_eq (submitted v req1 "email") (submitted v req2 "email") = false ->
  store_records (run v [(PostRegister, req1); (PostRegister, req2)] fs)
                (us ++ [new_record v req1; new_record v req2]).
Proof.
  intros Hst Hok Hreq1 Hreq2 Hf1 Hf2 Hne. cbn [run].
  destruct (register_spec v req1 fs us Hst Hok Hreq1) as (fs1 & resp1 & Hrun1 & Hc1).
  apply existsb_false_iff in Hf1. rewrite Hf1 in Hc1.
  destruct Hc1 as (Hst1 & _ & _). rewrite Hrun1. cbn [fst].
  assert (Hok1 : json_ok (JArray (us ++ [new_record v req1]))).
  { destruct Hreq1 as (Hn & He & Hp).
    apply json_ok_snoc; [exact Hok|now apply json_ok_record]. }
  destruct (register_spec v req2 fs1 _ Hst1 Hok1 Hreq2) as (fs2 & resp2 & Hrun2 & Hc2).
  assert (Hf : existsb (has_email (submitted v req2 "email")) (us ++ [new_record v req1])
               = false).
  { apply existsb_false_iff. intros u Hin.
    apply elem_of_app in Hin as [Hin|Hin]; [now apply Hf2|].
    apply list_elem_of_singleton in Hin. subst u.
    unfold has_email, new_record. now rewrite email_of_record. }
  rewrite Hf in Hc2. destruct Hc2 as (Hst2 & _ & _). rewrite Hrun2. cbn [fst].
  now rewrite <- app_assoc in Hst2.
Qed.

Lemma two_registrations_persist_witness :
  store_records
    (run Express [(PostRegister, register_ann); (PostRegister, repeated_email "/register")] ∅)
    ([] ++ [new_record Express register_ann;
            new_record Express (repeated_email "/register")]).
Proof.
  apply (two_registrations_persist Express register_ann (repeated_email "/register") ∅ []).
  - exact store_empty_records.
  - exact empty_json.
  - exact (post_form_wf_body Express _ _).
  - exact (repeated_email_wf "/register").
  - exact (no_record_yet _).
  - exact (no_record_yet _).
  - reflexivity.
Defined.

(** ** The profile page *)

Lemma handle_profile v req fs :
  handle v GetProfile req fs
  = match session_cookie v req with
    | Normal token => profile_tail token fs
    | Throw e => (fs, Throw e)
    | Fuel => (fs, Fuel)
    end.
Proof.
  destruct v; cbn [handle session_cookie]; [|reflexivity].
  unfold raw_get_profile, io_bind, lift at 1.
  destruct (parseCookies req); reflexivity.
Qed.

Lemma profile_tail_invalid token fs :
  truthy token = false \/ verifyToken token = Normal JNull ->
  profile_tail token fs = (fs, Normal (redirect "/")).
Proof.
  intros H. unfold profile_tail, io_bind, lift, io_ret.
  destruct (truthy token) eqn:Ht.
  - destruct H as [H|H]; [discriminate|]. rewrite H. reflexivity.
  - rewrite Ht. reflexivity.
Qed.

Lemma profile_without_session_aux fs req :
  session_cookie RawHttp req = Normal (JString header_unpadded) ->
  handle RawHttp GetProfile req fs = (fs, Normal (redirect "/")).
Proof.
  intros Hcookie. rewrite handle_profile, Hcookie.
  apply profile_tail_invalid. right. vm_compute. reflexivity.
Qed.

(** X10.  A profile request without session is sent to the home page, in
    both variants and whatever the store file contains: when the cookie
    [access_token] is absent or empty, or when [verifyToken] rejects its
    value, the answer is a redirect to [/] without cookie, and the store is
    not even read. *)
Theorem profile_without_session v req fs token :
  session_cookie v req = Normal token ->
  truthy token = false \/ verifyToken token = Normal JNull ->
  handle v GetProfile req fs = (fs, Normal (redirect "/")).
Proof.
  intros Hcookie Hbad. rewrite handle_profile, Hcookie.
  now apply profile_tail_invalid.
Qed.

Lemma profile_without_session_witness :
  handle RawHttp GetProfile profile_anonymous {[ DB_FILE := @nil Z ]}
  = ({[ DB_FILE := @nil Z ]}, Normal (redirect "/"))
  /\ handle Express GetProfile (profile_request (str "access_token=not-a-token"))
            store_ann
     = (store_ann, Normal (redirect "/")).
Proof.
  split.
  - apply (profile_without_session RawHttp profile_anonymous _ JUndefined).
    + reflexivity.
    + left. reflexivity.
  - apply (profile_without_session Express
             (profile_request (str "access_token=not-a-token")) _
             (JString (str "not-a-token"))).
    + vm_compute. reflexivity.
    + right. vm_compute. reflexivity.
Defined.

Lemma createToken_nonempty c token : createToken c = Normal token -> token <> [].
Proof.
  rewrite createToken_segments. destruct (encode_segment c); cbn [bind]; try discriminate.
  intros H. injection H as <-. discriminate.
Qed.

Lemma find_email_sub us e :
  Array_find (fun u => let* x := get_prop u (str "email") in
                       let* s := get_prop (claim e) (str "sub") in
                       Normal (strict_eq x s))
             (users_value us)
  = Normal (match find (fun u => bool_decide (u_email u = Some e)) us with
            | Some u => user_value u
            | None => JUndefined
            end).
Proof.
  assert (Hsub : get_prop (claim e) (str "sub") = Normal (opt_value (Some e))).
  { unfold claim. cbn [get_prop obj_get]. now rewrite bool_decide_eq_true_2. }
  unfold users_value, Array_find.
  induction us as [|u us IH]; [reflexivity|].
  cbn [map find_first find]. rewrite get_prop_email. cbn [bind].
  rewrite Hsub. cbn [bind]. rewrite strict_eq_opt.
  destruct (bool_decide (u_email u = Some e)); [reflexivity|exact IH].
Qed.

Lemma profile_tail_valid fs us e token :
  wf_string e -> createToken (claim e) = Normal token -> store_holds fs us ->
  profile_tail (JString token) fs
  = (fs, Normal (match find (fun u => bool_decide (u_email u = Some e)) us with
                 | Some u => send (ProfilePage (user_value u))
                 | None => redirect "/"
                 end)).
Proof.
  intros He Htoken Hholds.
  unfold profile_tail, io_bind, lift, io_ret.
  cbn [truthy]. rewrite bool_decide_eq_false_2 by (eapply createToken_nonempty; eassumption).
  cbn [negb].
  rewrite (verifyToken_issued (claim e) token (json_ok_claim e He) Htoken).
  cbn [claim truthy negb]. rewrite (store_holds_read _ _ Hholds).
  fold (claim e). rewrite find_email_sub.
  destruct (find _ us); reflexivity.
Qed.

(** X11.  A profile request whose cookie [access_token], as the variant
    reads it, is the token issued for an e-mail gets the page of the first
    stored record with that e-mail, and a redirect to [/] when there is
    none; the file system is unchanged. *)
Theorem profile_with_session v req fs us e token :
  wf_string e -> createToken (claim e) = Normal token ->
  session_cookie v req = Normal (JString token) ->
  store_holds fs us ->
  handle v GetProfile req fs
  = (fs, Normal (match find (fun u => bool_decide (u_email u = Some e)) us with
                 | Some u => send (ProfilePage (user_value u))
                 | None => redirect "/"
                 end)).
Proof.
  intros He Htoken Hcookie Hholds. rewrite handle_profile, Hcookie.
  now apply profile_tail_valid.
Qed.

Lemma profile_with_session_witness :
  handle RawHttp GetProfile
         (profile_request
            (str "access_token=eyJhbGciOiJub25lIiwidHlwIjoiSldUIn0%3D.eyJzdWIiOiJhQHguY29tIn0%3D."))
         store_ann
  = (store_ann,
     Normal (match find (fun u => bool_decide (u_email u = Some (str "a@x.com"))) [ann] with
             | Some u => send (ProfilePage (user_value u))
             | None => redirect "/"
             end)).
Proof.
  apply (profile_with_session RawHttp _ store_ann [ann] (str "a@x.com") token_ann).
  - apply str_wf.
  - vm_compute. reflexivity.
  - vm_compute. reflexivity.
  - exact store_ann_holds.
Defined.

Lemma find_app_fresh {A} (f : A -> bool) l x :
  existsb f l = false -> f x = true -> find f (l ++ [x]) = Some x.
Proof.
  induction l as [|a l IH]; cbn [existsb app find]; intros Hl Hx.
  - now rewrite Hx.
  - apply orb_false_iff in Hl as [Ha Hl]. rewrite Ha. now apply IH.
Qed.

(** The profile handler on a store of records, for the token of an
    e-mail. *)
Lemma profile_tail_records fs us e token :
  wf_string e -> createToken (claim e) = Normal token -> store_records fs us ->
  profile_tail (JString token) fs
  = (fs, Normal (match find (has_email (JString e)) us with
                 | Some u => send (ProfilePage u)
                 | None => redirect "/"
                 end)).
Proof.
  intros He Htoken [Hread Hobj].
  unfold profile_tail, io_bind, lift, io_ret.
  cbn [truthy]. rewrite bool_decide_eq_false_2 by (eapply createToken_nonempty; eassumption).
  cbn [negb].
  rewrite (verifyToken_issued (claim e) token (json_ok_claim e He) Htoken).
  cbn [claim truthy negb]. rewrite (store_read _ _ Hread). cbv beta iota.
  assert (Hfind : forall l,
             Forall (fun u => is_object u = true) l ->
             find_first (fun u => let* x := get_prop u (str "email") in
                                  let* s := get_prop (claim e) (str "sub") in
                                  Normal (strict_eq x s)) l
             = Normal (match find (has_email (JString e)) l with
                       | Some u => u
                       | None => JUndefined
                       end)).
  { induction 1 as [|u l Hu _ IH]; [reflexivity|].
    cbn [find_first find]. rewrite (get_email u Hu). unfold claim.
    cbn [bind get_prop obj_get].
    rewrite bool_decide_eq_true_2 by reflexivity. cbn [bind].
    unfold has_email at 1.
    destruct (strict_eq (email_of u) (JString e)); [reflexivity|exact IH]. }
  cbn [Array_find]. rewrite (Hfind us Hobj).
  destruct (find (has_email (JString e)) us) as [u|] eqn:Ef; [|reflexivity].
  apply find_some in Ef as [Hin _]. apply list_elem_of_In in Hin.
  rewrite (truthy_object u); [reflexivity|].
  exact (proj1 (Forall_forall _ _) Hobj u Hin).
Qed.

(** X12.  After a successful registration with an e-mail that is a string,
    a profile request that carries the token of that e-mail shows the
    record just registered. *)
Theorem register_then_profile v req preq fs us e token :
  store_records fs us -> json_ok (JArray us) -> wf_body v req ->
  submitted v req "email" = JString e ->
  (forall u, u ∈ us -> has_email (JString e) u = false) ->
  createToken (claim e) = Normal token ->
  session_cookie v preq = Normal (JString token) ->
  exists fs' resp,
    handle v PostRegister req fs = (fs', Normal resp)
    /\ session_response v (JString e) resp
    /\ handle v GetProfile preq fs'
       = (fs', Normal (send (ProfilePage (new_record v req)))).
Proof.
  intros Hst Hok Hreq He Hfresh Htoken Hcookie.
  destruct (register_spec v req fs us Hst Hok Hreq) as (fs' & resp & Hrun & Hcase).
  rewrite He in Hcase. apply existsb_false_iff in Hfresh. rewrite Hfresh in Hcase.
  destruct Hcase as (Hst' & _ & Hresp).
  exists fs', resp. split; [exact Hrun|]. split; [exact Hresp|].
  assert (Hwfe : wf_string e).
  { destruct Hreq as (_ & [Hu|Hj] & _); rewrite He in *; [discriminate|].
    now inversion Hj. }
  rewrite handle_profile, Hcookie.
  rewrite (profile_tail_records fs' _ e token Hwfe Htoken Hst').
  rewrite (find_app_fresh _ us (new_record v req)); [reflexivity|exact Hfresh|].
  unfold has_email, new_record. rewrite email_of_record, He.
  cbn [strict_eq]. now apply bool_decide_eq_true_2.
Qed.

Lemma register_then_profile_witness :
  exists fs' resp,
    handle Express PostRegister register_ann ∅ = (fs', Normal resp)
    /\ session_response Express (JString (str "a@x.com")) resp
    /\ handle Express GetProfile profile_ann fs'
       = (fs', Normal (send (ProfilePage (new_record Express register_ann)))).
Proof.
  apply (register_then_profile Express register_ann profile_ann ∅ []
           (str "a@x.com") token_ann).
  - exact store_empty_records.
  - exact empty_json.
  - exact (post_form_wf_body Express _ _).
  - reflexivity.
  - exact (no_record_yet _).
  - reflexivity.
  - reflexivity.
Defined.

(** ** Cookies and form fields of the plain server *)

Lemma base64_encode_avoid x bs :
  unbase64 x = None -> x <> 61 -> wf_buffer bs ->
  Forall (fun c => c <> x) (base64_encode bs).
Proof.
  unfold wf_buffer, wf_byte. intros Hx Hpad.
  assert (Hn : forall v, 0 <= v < 64 -> b64char v <> x).
  { intros v Hv Heq. pose proof (unbase64_b64char v Hv) as H.
    rewrite Heq, Hx in H. discriminate. }
  assert (Hp : 61 <> x) by congruence.
  induction bs as [|a|a b|a b c l IH] using list_ind3; intros Hwf; cbn [base64_encode].
  - constructor.
  - apply Forall_cons in Hwf as [Ha _].
    repeat (constructor; [first [exact Hp|apply Hn; lia]|]). constructor.
  - apply Forall_cons in Hwf as [Ha Hwf]. apply Forall_cons in Hwf as [Hb _].
    repeat (constructor; [first [exact Hp|apply Hn; lia]|]). constructor.
  - apply Forall_cons in Hwf as [Ha Hwf]. apply Forall_cons in Hwf as [Hb Hwf].
    apply Forall_cons in Hwf as [Hc Hwf].
    repeat (constructor; [apply Hn; lia|]). auto.
Qed.

Lemma header_padding : header_segment = header_unpadded ++ [61].
Proof. reflexivity. Qed.

Lemma issued_token_cut c token :
  json_ok c -> createToken c = Normal token ->
  parseCookies (profile_request (str "access_token=" ++ token))
  = Normal [(str "access_token", JString header_unpadded)].
Proof.
  intros Hok Htoken.
  destruct (json_ok_segment c Hok) as (seg & Hseg).
  rewrite createToken_segments, Hseg in Htoken.
  assert (Hsemi : Forall (fun x => x <> 59) seg).
  { unfold encode_segment in Hseg.
    destruct (JSON_parse_stringify c 0 Hok) as (t & Ht & _).
    rewrite Ht in Hseg. cbn [Buffer_from bind] in Hseg. injection Hseg as <-.
    apply base64_encode_avoid; [reflexivity|discriminate|].
    now apply (utf8_stringify c 0 t Hok Ht). }
  rewrite header_padding in Htoken.
  assert (Hu59 : Forall (fun x => x <> 59) header_unpadded).
  { unfold header_unpadded. repeat (constructor; [discriminate|]). constructor. }
  assert (Hu61 : Forall (fun x => x <> 61) header_unpadded).
  { unfold header_unpadded. repeat (constructor; [discriminate|]). constructor. }
  assert (Hudec : decodeURIComponent header_unpadded = Normal header_unpadded).
  { vm_compute. reflexivity. }
  assert (Hn59 : Forall (fun x => x <> 59) (str "access_token")).
  { vm_compute. repeat (constructor; [discriminate|]). constructor. }
  assert (Hn61 : Forall (fun x => x <> 61) (str "access_token")).
  { vm_compute. repeat (constructor; [discriminate|]). constructor. }
  assert (Htrim : trim (str "access_token") = str "access_token").
  { vm_compute. reflexivity. }
  assert (Hname : str "access_token=" = str "access_token" ++ [61]) by reflexivity.
  assert (Hown : str "access_token" <> proto_name) by (vm_compute; discriminate).
  set (hu := header_unpadded) in *. clearbody hu.
  set (name := str "access_token") in *. clearbody name.
  cbn [bind] in Htoken. injection Htoken as <-.
  unfold parseCookies, profile_request. cbn [req_cookie].
  rewrite Hname.
  rewrite bool_decide_eq_false_2 by (destruct name; discriminate).
  rewrite split_no_sep.
  2:{ repeat apply Forall_app_2; try assumption;
        repeat (constructor; [discriminate|]); try constructor.
      apply Forall_app_2; [assumption|]. repeat constructor; discriminate. }
  cbn [for_each].
  replace ((name ++ [61]) ++ (hu ++ [61]) ++ 46 :: seg ++ [46])
    with (name ++ 61 :: hu ++ 61 :: 46 :: seg ++ [46])
    by (now rewrite <- !app_assoc).
  rewrite split_app_sep by exact Hn61. rewrite split_app_sep by exact Hu61.
  cbn [nth]. rewrite Hudec, Htrim. cbn [bind]. unfold plain_set.
  rewrite bool_decide_eq_false_2 by exact Hown. reflexivity.
Qed.

(** X13.  The plain server never shows the profile for a token as
    [createToken] issues it: [parseCookies] cuts the cookie at the second
    [=], the padding of the header segment, so the request is redirected to
    [/] whatever the payload of the token and whatever the store holds. *)
Theorem raw_profile_rejects_issued_token c token fs :
  json_ok c -> createToken c = Normal token ->
  server (profile_request (str "access_token=" ++ token)) fs
  = (fs, Normal (redirect "/")).
Proof.
  intros Hok Htoken.
  rewrite (server_handle GetProfile) by reflexivity.
  apply (profile_without_session_aux fs).
  cbn [session_cookie]. now rewrite (issued_token_cut c token Hok Htoken).
Qed.

Lemma raw_profile_rejects_issued_token_witness :
  server (profile_request (str "access_token=" ++ token_ann)) store_ann
  = (store_ann, Normal (redirect "/")).
Proof.
  apply (raw_profile_rejects_issued_token (claim (str "a@x.com")) token_ann store_ann).
  - apply json_ok_claim, str_wf.
  - vm_compute. reflexivity.
Defined.

Lemma decodeURIComponent_cases s :
  (exists t, decodeURIComponent s = Normal t) \/ decodeURIComponent s = Throw URIError.
Proof.
  unfold decodeURIComponent.
  destruct (uri_tokens s) as [ts|]; [|now right].
  destruct (uri_decode ts); [left; eauto|now right].
Qed.

(** X14.  When every cookie value decodes, [parseCookies] returns an object
    whose own properties are, under each name but [__proto__], the decoded
    value of the last piece of the header with that name (the name trimmed,
    the value cut at the second [=] of the piece); a piece named [__proto__]
    stores nothing.  So [cookies[k]] is that value, and [undefined] when no
    piece has the name, for every name [k] that [Object.prototype] does not
    supply. *)
Theorem parseCookies_lookup req header :
  req_cookie req = Some header -> header <> [] ->
  Forall (fun piece => exists t, cookie_text piece = Normal t) (split 59 header) ->
  exists cookies,
    parseCookies req = Normal cookies
    /\ forall k,
        own_prop cookies k
        = (if bool_decide (k = proto_name) then None
           else option_map JString (last_cookie k (split 59 header)))
        /\ (inherited k = false ->
            obj_get cookies k = opt_value (last_cookie k (split 59 header))).
Proof.
  intros Hreq Hne Hall. unfold parseCookies. rewrite Hreq.
  rewrite bool_decide_eq_false_2 by exact Hne.
  unfold last_cookie.
  assert (Hgen : forall pieces,
             Forall (fun piece => exists t, cookie_text piece = Normal t) pieces ->
             forall acc,
             exists cookies,
               for_each
                 (fun list cookie =>
                    let parts := split 61 cookie in
                    let* v := decodeURIComponent (nth 1 parts (str "undefined")) in
                    Normal (plain_set list (trim (nth 0 parts [])) v))
                 pieces acc = Normal cookies
               /\ forall k r,
                   own_prop acc k
                   = (if bool_decide (k = proto_name) then None
                      else option_map JString r) ->
                   own_prop cookies k
                   = if bool_decide (k = proto_name) then None
                     else option_map JString
                            (fold_left
                               (fun r piece =>
                                  if bool_decide (cookie_name piece = k) then
                                    match cookie_text piece with
                                    | Normal v => Some v
                                    | _ => r
                                    end
                                  else r) pieces r)).
  { induction 1 as [|piece pieces (t & Ht) _ IH]; intros acc.
    - exists acc. split; [reflexivity|]. intros k r Hacc. exact Hacc.
    - cbn [for_each fold_left]. cbv zeta.
      fold (cookie_text piece). fold (cookie_name piece). rewrite Ht. cbn [bind].
      destruct (IH (plain_set acc (cookie_name piece) t)) as (cookies & Hrun & Hget).
      exists cookies. split; [exact Hrun|]. intros k r Hacc.
      apply Hget. rewrite own_prop_plain_set.
      destruct (decide (cookie_name piece = k)) as [->|Hnk].
      + rewrite (bool_decide_eq_true_2 (k = k)) by reflexivity.
        destruct (bool_decide (k = proto_name)); [exact Hacc|reflexivity].
      + rewrite (bool_decide_eq_false_2 (cookie_name piece = k)) by exact Hnk.
        destruct (bool_decide (cookie_name piece = proto_name)); exact Hacc. }
  destruct (Hgen _ Hall []) as (cookies & Hrun & Hget).
  exists cookies. split; [exact Hrun|]. intros k.
  assert (Hown : own_prop cookies k
                 = if bool_decide (k = proto_name) then None
                   else option_map JString
                          (fold_left
                             (fun r piece =>
                                if bool_decide (cookie_name piece = k) then
                                  match cookie_text piece with
                                  | Normal v => Some v
                                  | _ => r
                                  end
                                else r) (split 59 header) None)).
  { apply Hget. now destruct (bool_decide (k = proto_name)). }
  split; [exact Hown|]. intros Hk.
  rewrite own_prop_get, Hown.
  rewrite bool_decide_eq_false_2.
  - now destruct (fold_left _ (split 59 header) None).
  - intros ->. vm_compute in Hk. discriminate Hk.
Qed.

Lemma sample_cookies_decode :
  Forall (fun piece => exists t, cookie_text piece = Normal t)
         (split 59 (str "a=1; __proto__=x=y;a = two%20words")).
Proof.
  assert (Hs : split 59 (str "a=1; __proto__=x=y;a = two%20words")
               = [str "a=1"; str " __proto__=x=y"; str "a = two%20words"])
    by (vm_compute; reflexivity).
  rewrite Hs. unfold cookie_text.
  repeat (apply List.Forall_cons;
          [match goal with
           | |- exists t, decodeURIComponent ?s = Normal t =>
             destruct (decodeURIComponent_cases s) as [H|H];
             [exact H|vm_compute in H; discriminate H]
           end|]).
  apply List.Forall_nil.
Qed.

Lemma parseCookies_lookup_witness :
  exists cookies,
    parseCookies (profile_request (str "a=1; __proto__=x=y;a = two%20words")) = Normal cookies
    /\ forall k,
        own_prop cookies k
        = (if bool_decide (k = proto_name) then None
           else option_map JString
                  (last_cookie k (split 59 (str "a=1; __proto__=x=y;a = two%20words"))))
        /\ (inherited k = false ->
            obj_get cookies k
            = opt_value (last_cookie k (split 59 (str "a=1; __proto__=x=y;a = two%20words")))).
Proof.
  apply (parseCookies_lookup (profile_request (str "a=1; __proto__=x=y;a = two%20words"))
           (str "a=1; __proto__=x=y;a = two%20words")).
  - reflexivity.
  - discriminate.
  - exact sample_cookies_decode.
Defined.

(** X15.  A cookie whose value has a malformed percent escape makes
    [parseCookies] throw a URIError, which the profile handler of the plain
    server does not catch: the request ends in that exception, and nothing
    is written. *)
Theorem raw_profile_bad_escape req header fs :
  req_cookie req = Some header -> header <> [] ->
  Exists (fun piece => cookie_text piece = Throw URIError) (split 59 header) ->
  parseCookies req = Throw URIError
  /\ handle RawHttp GetProfile req fs = (fs, Throw URIError).
Proof.
  intros Hreq Hne Hex.
  assert (Hparse : parseCookies req = Throw URIError).
  { unfold parseCookies. rewrite Hreq.
    rewrite bool_decide_eq_false_2 by exact Hne.
    generalize (@nil (jsstring * value)).
    induction Hex as [piece pieces Hbad|piece pieces _ IH]; intros acc;
      cbn [for_each]; cbv zeta; fold (cookie_text piece).
    - now rewrite Hbad.
    - destruct (decodeURIComponent_cases (nth 1 (split 61 piece) (str "undefined")))
        as [(t & Ht)|Ht]; unfold cookie_text; rewrite Ht; cbn [bind];
        [apply IH|reflexivity]. }
  split; [exact Hparse|].
  rewrite handle_profile. cbn [session_cookie]. now rewrite Hparse.
Qed.

Lemma sample_cookie_bad :
  Exists (fun piece => cookie_text piece = Throw URIError)
         (split 59 (str "theme=dark; access_token=%zz")).
Proof.
  assert (Hs : split 59 (str "theme=dark; access_token=%zz")
               = [str "theme=dark"; str " access_token=%zz"])
    by (vm_compute; reflexivity).
  rewrite Hs. apply List.Exists_cons_tl, List.Exists_cons_hd.
  vm_compute. reflexivity.
Qed.

Lemma raw_profile_bad_escape_witness :
  parseCookies (profile_request (str "theme=dark; access_token=%zz")) = Throw URIError
  /\ handle RawHttp GetProfile (profile_request (str "theme=dark; access_token=%zz")) store_ann
     = (store_ann, Throw URIError).
Proof.
  apply (raw_profile_bad_escape (profile_request (str "theme=dark; access_token=%zz"))
           (str "theme=dark; access_token=%zz") store_ann).
  - reflexivity.
  - discriminate.
  - exact sample_cookie_bad.
Defined.

(** X16.  The object [parseBody] builds has, under every field name but
    [__proto__], the last value sent under that name as own property, and no
    own property under a name that was not sent; a field named [__proto__]
    stores nothing.  So [result[k]] is the last value sent, and [undefined]
    when the name was not sent, for every name [k] that [Object.prototype]
    does not supply. *)
Theorem parseBody_last_wins req k :
  own_prop (parseBody req) k
  = (if bool_decide (k = proto_name) then None
     else option_map JString (last_field k (req_form req)))
  /\ (inherited k = false ->
      obj_get (parseBody req) k = opt_value (last_field k (req_form req))).
Proof.
  split; [apply parseBody_own|]. intros Hk. apply parseBody_get.
  intros ->. vm_compute in Hk. discriminate Hk.
Qed.

Lemma parseBody_last_wins_witness :
  own_prop (parseBody (repeated_email "/login")) (str "email")
  = (if bool_decide (str "email" = proto_name) then None
     else option_map JString (last_field (str "email") (req_form (repeated_email "/login"))))
  /\ (inherited (str "email") = false ->
      obj_get (parseBody (repeated_email "/login")) (str "email")
      = opt_value (last_field (str "email") (req_form (repeated_email "/login")))).
Proof. exact (parseBody_last_wins (repeated_email "/login") (str "email")). Defined.
